(** * node-casbin [src/config.ts]: the sectioned configuration store

    A shallow embedding of the [Config] class: the line-oriented parser
    ([parseBuffer], [write], [validateMatcher], [addConfig]) and the
    getters ([get], [getBool], [getInt], [getFloat], [getStrings]).

    Modelling conventions.
    - A JavaScript string is a [string]; one [ascii] stands for one UTF-16
      code unit below 256 (Latin-1).  Every string primitive used by the
      source is defined in [Module JS], following ECMA-262 on that range.
    - [this.data : Map<string, Map<string, string>>] is a
      [gmap string (gmap string string)].
    - [throw new Error(msg)] is the [Throw msg] case of [result]. *)

From Stdlib Require Import Ascii String ZArith Lia DecimalString DecimalNat.
From Stdlib Require SpecFloat.
From stdpp Require Import base gmap strings list.

Local Open Scope Z_scope.

(** ** Exceptions *)

Inductive result (A : Type) : Type :=
| Ok (a : A)
| Throw (message : string).
Arguments Ok {A} a.
Arguments Throw {A} message.

Global Instance result_ret : MRet result := fun A a => Ok a.

Global Instance result_bind : MBind result := fun A B k r =>
  match r with
  | Ok a => k a
  | Throw m => Throw m
  end.

(** ** The JavaScript string primitives the source calls *)

Module JS.

(** Line feed, the separator of [split('\n')]. *)
Definition LF : string := String (ascii_of_nat 10) EmptyString.

(** ECMA-262 WhiteSpace and LineTerminator, restricted to code units
    below 256: TAB, LF, VT, FF, CR, SP, NBSP. *)
Definition isWhiteSpace (c : ascii) : bool :=
  let n := nat_of_ascii c in
  ((9 <=? n)%nat && (n <=? 13)%nat) || (n =? 32)%nat || (n =? 160)%nat.

Fixpoint trimStart (s : string) : string :=
  match s with
  | EmptyString => EmptyString
  | String c s' => if isWhiteSpace c then trimStart s' else s
  end.

Fixpoint trimEnd (s : string) : string :=
  match s with
  | EmptyString => EmptyString
  | String c s' =>
      match trimEnd s' with
      | EmptyString => if isWhiteSpace c then EmptyString else String c EmptyString
      | t => String c t
      end
  end.

(** [s.trim()] *)
Definition trim (s : string) : string := trimEnd (trimStart s).

(** [s.startsWith(p)] *)
Definition startsWith (s p : string) : bool := String.prefix p s.

(** [s.endsWith(p)] *)
Fixpoint endsWith (s p : string) : bool :=
  String.eqb s p ||
  match s with
  | EmptyString => false
  | String _ s' => endsWith s' p
  end.

(** [s.includes(p)] *)
Fixpoint includes (s p : string) : bool :=
  String.prefix p s ||
  match s with
  | EmptyString => false
  | String _ s' => includes s' p
  end.

(** [s.indexOf(p)]: the position of the first occurrence, [-1] if none. *)
Fixpoint indexOf (s p : string) : Z :=
  if String.prefix p s then 0
  else match s with
       | EmptyString => -1
       | String _ s' => let i := indexOf s' p in if i =? -1 then -1 else i + 1
       end.

Definition length (s : string) : Z := Z.of_nat (String.length s).

Definition clamp (i : Z) (s : string) : Z := Z.min (Z.max i 0) (length s).

(** [s.substring(start, end)]: both ends clamped to [0, length], swapped
    when [start > end]. *)
Definition substring (s : string) (start stop : Z) : string :=
  let a := clamp start s in
  let b := clamp stop s in
  let from := Z.min a b in
  let to := Z.max a b in
  String.substring (Z.to_nat from) (Z.to_nat (to - from)) s.

(** [s.substring(start)] *)
Definition substringFrom (s : string) (start : Z) : string :=
  substring s start (length s).

(** [s.slice(start, end)]: a negative index counts from the end; empty when
    the ends cross. *)
Definition slice (s : string) (start stop : Z) : string :=
  let rel i := if i <? 0 then Z.max (length s + i) 0 else Z.min i (length s) in
  let from := rel start in
  let to := rel stop in
  String.substring (Z.to_nat from) (Z.to_nat (Z.max (to - from) 0)) s.

(** [s.split(sep)] for a non-empty separator.  [skip] counts the code units
    of a matched separator still to be passed over, [cur] is the piece being
    collected. *)
Fixpoint splitFrom (sep s : string) (skip : nat) (cur : string) : list string :=
  match s with
  | EmptyString => [cur]
  | String c s' =>
      match skip with
      | S k => splitFrom sep s' k cur
      | O =>
          if String.prefix sep s
          then cur :: splitFrom sep s' (String.length sep - 1) EmptyString
          else splitFrom sep s' O (cur +:+ String c EmptyString)
      end
  end.

Definition split (s sep : string) : list string := splitFrom sep s O EmptyString.

(** [a.join(sep)] *)
Fixpoint join (a : list string) (sep : string) : string :=
  match a with
  | [] => EmptyString
  | [x] => x
  | x :: rest => x +:+ sep +:+ join rest sep
  end.

(** [s.toLowerCase()] on code units below 256: A-Z and the Latin-1 capitals
    (U+00C0-U+00DE except the multiplication sign U+00D7) move up by 32. *)
Definition lowerChar (c : ascii) : ascii :=
  let n := nat_of_ascii c in
  if ((65 <=? n)%nat && (n <=? 90)%nat)
     || ((192 <=? n)%nat && (n <=? 222)%nat && negb (n =? 215)%nat)
  then ascii_of_nat (n + 32)
  else c.

Fixpoint toLowerCase (s : string) : string :=
  match s with
  | EmptyString => EmptyString
  | String c s' => String (lowerChar c) (toLowerCase s')
  end.

(** The decimal rendering of a line number inside a template string. *)
Definition ofNat (n : nat) : string := NilZero.string_of_uint (Nat.to_uint n).

(** [!!s]: a string is truthy iff it is not empty. *)
Definition truthy (s : string) : bool :=
  match s with
  | EmptyString => false
  | String _ _ => true
  end.

(** The number of occurrences of one code unit: [(s.match(/c/g) || []).length]. *)
Fixpoint countChar (c : ascii) (s : string) : nat :=
  match s with
  | EmptyString => O
  | String d s' => ((if Ascii.eqb c d then 1 else 0) + countChar c s')%nat
  end.

(** The regular-expression class [\w]: [A-Za-z0-9_]. *)
Definition isWordChar (c : ascii) : bool :=
  let n := nat_of_ascii c in
  ((48 <=? n)%nat && (n <=? 57)%nat) || ((65 <=? n)%nat && (n <=? 90)%nat)
  || ((97 <=? n)%nat && (n <=? 122)%nat) || (n =? 95)%nat.

(** The longest prefix matching [\w*]. *)
Fixpoint takeWord (s : string) : string :=
  match s with
  | EmptyString => EmptyString
  | String c s' => if isWordChar c then String c (takeWord s') else EmptyString
  end.

(** *** Numbers

    A JavaScript number is an IEEE-754 binary64 value: [spec_float] of the
    Standard Library at precision 53 and exponent bound 1024. *)
Definition number : Type := SpecFloat.spec_float.

Definition NaN : number := SpecFloat.S754_nan.

Definition prec : Z := 53.
Definition emax : Z := 1024.

(** What [Number.parseInt] and [Number.parseFloat] read off a text before
    any rounding (the mathematical value of ECMA-262): nothing, an infinity,
    or [(-1)^negative * digits * 10^exponent].  The sign is kept apart from
    the magnitude because [parseInt("-0")] is the negative zero. *)
Inductive literal : Type :=
| NoLiteral
| InfinityLiteral (negative : bool)
| DecimalLiteral (negative : bool) (digits : N) (exponent : Z).

(** The number for [(-1)^negative * digits * 10^exponent]: the nearest
    double, ties to the even significand, an infinity beyond the largest
    double, a zero of that sign below the smallest.  The value is the
    quotient of two integers, [digits * 10^max(exponent, 0)] by
    [10^max(-exponent, 0)], which the division of binary64 rounds once.
    (ECMA-262 lets an engine drop the digits after the twentieth; V8 rounds
    the exact value, as here.) *)
Definition roundDecimal (negative : bool) (digits : N) (exponent : Z) : number :=
  match digits with
  | N0 => SpecFloat.S754_zero negative
  | Npos p =>
      SpecFloat.SFdiv prec emax
        (SpecFloat.S754_finite negative
           (Z.to_pos (Zpos p * 10 ^ Z.max exponent 0)) 0)
        (SpecFloat.S754_finite false (Z.to_pos (10 ^ Z.max (- exponent) 0)) 0)
  end.

Definition toNumber (l : literal) : number :=
  match l with
  | NoLiteral => NaN
  | InfinityLiteral negative => SpecFloat.S754_infinity negative
  | DecimalLiteral negative digits exponent => roundDecimal negative digits exponent
  end.

Definition isDigit (c : ascii) : bool :=
  let n := nat_of_ascii c in (48 <=? n)%nat && (n <=? 57)%nat.

(** The longest prefix of decimal digits, and what follows it. *)
Fixpoint takeDigits (s : string) : string :=
  match s with
  | EmptyString => EmptyString
  | String c s' => if isDigit c then String c (takeDigits s') else EmptyString
  end.

Fixpoint dropDigits (s : string) : string :=
  match s with
  | EmptyString => EmptyString
  | String c s' => if isDigit c then dropDigits s' else s
  end.

Fixpoint digitsValueFrom (acc : N) (s : string) : N :=
  match s with
  | EmptyString => acc
  | String c s' => digitsValueFrom (acc * 10 + N.of_nat (nat_of_ascii c - 48))%N s'
  end.

Definition digitsValue (s : string) : N := digitsValueFrom 0%N s.

(** An optional leading [+] or [-]. *)
Definition stripSign (s : string) : bool * string :=
  match s with
  | String "-"%char r => (true, r)
  | String "+"%char r => (false, r)
  | _ => (false, s)
  end.

(** What [Number.parseInt(s, 10)] reads: leading white space and a sign are
    skipped, the longest run of decimal digits is read, the rest is
    ignored; nothing when that run is empty. *)
Definition readInt10 (s : string) : literal :=
  let '(negative, r) := stripSign (trimStart s) in
  match takeDigits r with
  | EmptyString => NoLiteral
  | ds => DecimalLiteral negative (digitsValue ds) 0
  end.

(** [Number.parseInt(s, 10)] *)
Definition parseInt10 (s : string) : number := toNumber (readInt10 s).

(** ExponentPart of StrDecimalLiteral: [e] or [E], an optional sign, at least
    one digit; it contributes 0 when it is not there in full. *)
Definition exponentPart (s : string) : Z :=
  match s with
  | String c r =>
      if Ascii.eqb c "e"%char || Ascii.eqb c "E"%char then
        let '(negative, r') := stripSign r in
        match takeDigits r' with
        | EmptyString => 0
        | ds => let e := Z.of_N (digitsValue ds) in if negative then - e else e
        end
      else 0
  | EmptyString => 0
  end.

(** What [Number.parseFloat(s)] reads: the longest prefix of the trimmed
    text that is a StrDecimalLiteral; nothing when there is none. *)
Definition readFloat (s : string) : literal :=
  let '(negative, r) := stripSign (trimStart s) in
  if String.prefix "Infinity" r then InfinityLiteral negative
  else
    let ip := takeDigits r in
    let r1 := dropDigits r in
    let '(fp, r2) :=
      match r1 with
      | String "."%char r' => (takeDigits r', dropDigits r')
      | _ => (EmptyString, r1)
      end in
    match ip +:+ fp with
    | EmptyString => NoLiteral
    | ds =>
        DecimalLiteral negative (digitsValue ds) (exponentPart r2 - length fp)
    end.

(** [Number.parseFloat(s)] *)
Definition parseFloat (s : string) : number := toNumber (readFloat s).

End JS.

(** ** The [Config] class *)

Module Config.
Import JS.

Definition DEFAULT_SECTION : string := "default".
Definition DEFAULT_COMMENT : string := "#".
Definition DEFAULT_COMMENT_SEM : string := ";".
Definition DEFAULT_MULTI_LINE_SEPARATOR : string := "\".

(** One [addConfig] call: the section the entry went to, its key, its value. *)
Definition Entry : Type := string * string * string.

(** The object.  [data] is the field of the source.  [written] is a history
    variable: the [addConfig] calls made on the object so far, oldest first.
    The source keeps no such list and no operation reads it; it is there to
    state what "the last value written" is. *)
Record Config : Type := mkConfig {
  data : gmap string (gmap string string);
  written : list Entry
}.

(** [new Config()] *)
Definition construct : Config := {| data := ∅; written := [] |}.

(** [addConfig(section, option, value)]; the item of the section is updated
    in place, which is an insertion of the updated item under its section. *)
Definition addConfig (this : Config) (section option value : string)
  : Config * bool :=
  let section := if String.eqb section "" then DEFAULT_SECTION else section in
  let hasKey := bool_decide (is_Some (data this !! section)) in
  let d := if negb hasKey then <[section := ∅]> (data this) else data this in
  match d !! section with
  | Some item =>
      let item := <[option := value]> item in
      ({| data := <[section := item]> d;
          written := written this ++ [(section, option, value)] |},
       bool_decide (is_Some (item !! option)))
  | None => ({| data := d; written := written this |}, false)
  end.

Definition validProps : list string :=
  ["r.sub"; "r.obj"; "r.act"; "p.sub"; "p.obj"; "p.act"; "p.eft"].

(** A match of [/[rp]\.\w+/] anchored at the head of [s]. *)
Definition propAt (s : string) : option string :=
  match s with
  | String c (String "."%char rest) =>
      if Ascii.eqb c "r"%char || Ascii.eqb c "p"%char then
        match takeWord rest with
        | EmptyString => None
        | w => Some (String c (String "."%char w))
        end
      else None
  | _ => None
  end.

(** [s.match(/[rp]\.\w+/g) || []]: the matches from left to right, each
    search resuming after the previous match; [skip] counts the code units
    of the last match still to be passed over. *)
Fixpoint matchPropsFrom (s : string) (skip : nat) : list string :=
  match s with
  | EmptyString => []
  | String _ s' =>
      match skip with
      | S k => matchPropsFrom s' k
      | O =>
          match propAt s with
          | Some m => m :: matchPropsFrom s' (String.length m - 1)
          | None => matchPropsFrom s' O
          end
      end
  end.

Definition matchProps (s : string) : list string := matchPropsFrom s O.

(** [validProps.includes(prop)] *)
Definition isValidProp (prop : string) : bool :=
  existsb (String.eqb prop) validProps.

Definition push (errors : list string) (e : string) : list string := errors ++ [e].

Definition validateMatcher (matcherStr : string) (lineNumber : nat) : result unit :=
  let errors : list string := [] in
  let usedProps := matchProps matcherStr in
  let invalidProps := List.filter (fun prop => negb (isValidProp prop)) usedProps in
  let errors :=
    if (0 <? List.length invalidProps)%nat
    then push errors ("Invalid properties: " +:+ join invalidProps ", ")
    else errors in
  let errors :=
    if includes matcherStr ".." then push errors "Found extra dots" else errors in
  let errors :=
    if endsWith (trim matcherStr) "," then push errors "Unnecessary comma" else errors in
  let openBrackets := countChar "("%char matcherStr in
  let closeBrackets := countChar ")"%char matcherStr in
  let errors :=
    if negb (openBrackets =? closeBrackets)%nat
    then push errors "Mismatched parentheses"
    else errors in
  if (0 <? List.length errors)%nat then Throw (join errors ", ") else Ok tt.

Definition write (this : Config) (section : string) (lineNum : nat) (line : string)
  : result Config :=
  let equalIndex := indexOf line "=" in
  if equalIndex =? -1 then
    Throw ("parse the content error : line " +:+ ofNat lineNum)
  else
    let key := trim (substring line 0 equalIndex) in
    let value := trim (substringFrom line (equalIndex + 1)) in
    _ ← (if String.eqb section "matchers" then validateMatcher value lineNum else Ok tt);
    Ok (fst (addConfig this section key value)).

(** The variables of [parseBuffer] that the callback of [lines.forEach]
    reads and assigns, with the object itself. *)
Record Locals : Type := mkLocals {
  this : Config;
  section : string;
  currentLine : string;
  seenSections : gset string
}.

Definition stripComment (n marker : string) : string :=
  let commentPos := indexOf n marker in
  if -1 <? commentPos then slice n 0 commentPos else n.

(** The body of the callback once the line is known to be a section header. *)
Definition openSection (st : Locals) (line : string) (lineNumber : nat)
  : result Locals :=
  st ← (if negb (String.length (currentLine st) =? 0)%nat then
          this' ← write (this st) (section st) (lineNumber - 1) (currentLine st);
          Ok (mkLocals this' (section st) "" (seenSections st))
        else Ok st);
  let section := substring line 1 (length line - 1) in
  if bool_decide (section ∈ seenSections st) then
    Throw ("Duplicated section: " +:+ section +:+ " at line " +:+ ofNat lineNumber)
  else
    Ok (mkLocals (this st) section (currentLine st) (seenSections st ∪ {[section]})).

(** The body of the callback for any other non-blank line. *)
Definition addLine (linesCount : nat) (st : Locals) (line : string) (lineNumber : nat)
  : result Locals :=
  let '(currentLine, shouldWrite) :=
    if endsWith line DEFAULT_MULTI_LINE_SEPARATOR
    then (currentLine st +:+ trim (substring line 0 (length line - 1)), false)
    else (currentLine st +:+ line, true) in
  if shouldWrite || (lineNumber =? linesCount)%nat then
    this' ← write (this st) (section st) lineNumber currentLine;
    Ok (mkLocals this' (section st) "" (seenSections st))
  else Ok (mkLocals (this st) (section st) currentLine (seenSections st)).

(** The callback of [lines.forEach((n, index) => ...)]. *)
Definition callback (linesCount : nat) (st : Locals) (n : string) (index : nat)
  : result Locals :=
  let n := stripComment n DEFAULT_COMMENT in
  let n := stripComment n DEFAULT_COMMENT_SEM in
  let line := trim n in
  if negb (truthy line) then Ok st
  else
    let lineNumber := (index + 1)%nat in
    if startsWith line "[" && endsWith line "]"
    then openSection st line lineNumber
    else addLine linesCount st line lineNumber.

Fixpoint forEach (linesCount : nat) (lines : list string) (index : nat) (st : Locals)
  : result Locals :=
  match lines with
  | [] => Ok st
  | n :: rest =>
      st' ← callback linesCount st n index;
      forEach linesCount rest (S index) st'
  end.

(** [buf.toString().split('\n').filter((v) => v)] *)
Definition linesOf (buf : string) : list string :=
  List.filter truthy (split buf LF).

(** [parseBuffer], returning the locals as they are when the loop ends. *)
Definition runBuffer (this : Config) (buf : string) : result Locals :=
  let lines := linesOf buf in
  let linesCount := List.length lines in
  forEach linesCount lines 0 (mkLocals this "" "" ∅).

Definition parseBuffer (this : Config) (buf : string) : result Config :=
  st ← runBuffer this buf;
  Ok (Config.this st).

(** [Config.newConfigFromText(text)]; [Buffer.from(text).toString()] gives
    the text back. *)
Definition newConfigFromText (text : string) : result Config :=
  parseBuffer construct text.

(** [get(key)] *)
Definition get (this : Config) (key : string) : string :=
  let keys := split (toLowerCase key) "::" in
  let '(section, option) :=
    if (2 <=? List.length keys)%nat
    then (nth 0 keys "", nth 1 keys "")
    else (DEFAULT_SECTION, nth 0 keys "") in
  let item := data this !! section in
  let itemChild := item ≫= (fun m => m !! option) in
  match itemChild with
  | Some v => if truthy v then v else ""
  | None => ""
  end.

(** [set(key, value)] *)
Definition set (this : Config) (key value : string) : result Config :=
  if negb (truthy key) then Throw "key is empty"
  else
    let keys := split (toLowerCase key) "::" in
    let '(section, option) :=
      if (2 <=? List.length keys)%nat
      then (nth 0 keys "", nth 1 keys "")
      else ("", nth 0 keys "") in
    Ok (fst (addConfig this section option value)).

Definition getBool (this : Config) (key : string) : bool := truthy (get this key).

Definition getInt (this : Config) (key : string) : number := parseInt10 (get this key).

Definition getFloat (this : Config) (key : string) : number := parseFloat (get this key).

Definition getString (this : Config) (key : string) : string := get this key.

Definition getStrings (this : Config) (key : string) : list string :=
  let v := get this key in
  split v ",".

(** The file system of [./persist], of which the source calls
    [readFileSync]; the call may fail.  The text it gives stands for the
    string, or for the decoded buffer, that the call returns. *)
Record FileSystem : Type := mkFileSystem {
  readFileSync : string → result string
}.

Section Files.

(** [mustGetDefaultFileSystem()], declared in [./persist]. *)
Variable mustGetDefaultFileSystem : result FileSystem.

(** [parse(path)]; [fs] is the field [this.fs], which the constructor sets
    when it is given a file system. *)
Definition parse (fs : option FileSystem) (this : Config) (path : string)
  : result Config :=
  fileSystem ← match fs with
               | Some fs => Ok fs
               | None => mustGetDefaultFileSystem
               end;
  body ← readFileSync fileSystem path;
  parseBuffer this body.

(** [Config.newConfigFromFile(path, fs)] *)
Definition newConfigFromFile (path : string) (fs : option FileSystem)
  : result Config :=
  parse fs construct path.

(** [Config.newConfig(confName)], deprecated in favour of the former. *)
Definition newConfig (confName : string) : result Config :=
  newConfigFromFile confName None.

End Files.

End Config.

(** ** Notions the statements are written with *)

Module ConfigSpec.
Import JS Config.

(** The value held under a section and a key, if any. *)
Definition stored (c : Config) (sec opt : string) : option string :=
  data c !! sec ≫= (fun m => m !! opt).

(** The section and the key that [get] addresses for a qualified key. *)
Definition addressOf (key : string) : string * string :=
  let keys := split (toLowerCase key) "::" in
  if (2 <=? List.length keys)%nat
  then (nth 0 keys "", nth 1 keys "")
  else (DEFAULT_SECTION, nth 0 keys "").

(** The value of the last entry of a history for a section and a key. *)
Definition lastWritten (h : list Entry) (sec opt : string) : option string :=
  foldl (fun acc e =>
           match e with
           | (s, k, v) =>
               if String.eqb s sec && String.eqb k opt then Some v else acc
           end) None h.

(** The store holds, under every section and key, the last value of the
    history. *)
Definition consistent (c : Config) : Prop :=
  ∀ sec opt, stored c sec opt = lastWritten (written c) sec opt.

(** The text begins with a decimal digit. *)
Definition beginsWithDigit (s : string) : bool :=
  match s with
  | String c _ => isDigit c
  | EmptyString => false
  end.

(** The key and the value that [write] cuts a logical line into. *)
Definition keyOf (line : string) : string :=
  trim (substring line 0 (indexOf line "=")).

Definition valueOf (line : string) : string :=
  trim (substringFrom line (indexOf line "=" + 1)).

(** The tokens of a matcher that are not on the white list. *)
Definition invalidProps (s : string) : list string :=
  List.filter (fun prop => negb (isValidProp prop)) (matchProps s).

(** The messages of the defects of a matcher, one per kind of defect, in
    the order of the checks. *)
Definition defects (s : string) : list string :=
  (if bool_decide (invalidProps s = []) then []
   else ["Invalid properties: " +:+ join (invalidProps s) ", "])
  ++ (if includes s ".." then ["Found extra dots"] else [])
  ++ (if endsWith (trim s) "," then ["Unnecessary comma"] else [])
  ++ (if bool_decide (countChar "("%char s = countChar ")"%char s) then []
      else ["Mismatched parentheses"]).

(** A physical line as the callback sees it once the comments are cut and
    the rest is trimmed. *)
Definition cleaned (n : string) : string :=
  trim (stripComment (stripComment n DEFAULT_COMMENT) DEFAULT_COMMENT_SEM).

(** The line is a section header; the name it opens. *)
Definition isHeader (n : string) : bool :=
  startsWith (cleaned n) "[" && endsWith (cleaned n) "]".

Definition headerName (n : string) : string :=
  substring (cleaned n) 1 (length (cleaned n) - 1).

(** The locals when [parseBuffer] enters its loop. *)
Definition initial (c : Config) : Locals := mkLocals c "" "" ∅.

(** A computation that raises no error. *)
Definition succeeds {A : Type} (r : result A) : Prop := ∃ a, r = Ok a.

(** The sections of the store are [default] and names seen; the active
    section is a name seen, or still empty. *)
Definition sectionsSeen (st : Locals) : Prop :=
  (∀ sec, is_Some (data (this st) !! sec) →
          sec = DEFAULT_SECTION ∨ sec ∈ seenSections st)
  ∧ (section st = "" ∨ section st ∈ seenSections st).

(** The failures of parsing: a logical line without [=] or a duplicate
    section, each cited under a line number from 1 to [count], or the
    defects of a matcher, which cite no line. *)
Definition parseFailure (count : nat) (msg : string) : Prop :=
  (∃ n, (1 ≤ n ≤ count)%nat
        ∧ (msg = "parse the content error : line " +:+ ofNat n
           ∨ ∃ name, msg = "Duplicated section: " +:+ name +:+ " at line "
                           +:+ ofNat n))
  ∨ (∃ value, defects value ≠ [] ∧ msg = join (defects value) ", ").

(** *** The pieces of a comma-separated text *)

Definition commaFree (s : string) : Prop := ","%char ∉ list_ascii_of_string s.

(** [l] is [s] cut at its commas: at least one piece, no comma in a piece,
    and the pieces with a comma between neighbours are [s].  ([String.concat]
    is the Standard Library's.) *)
Definition CutAtCommas (s : string) (l : list string) : Prop :=
  l ≠ [] ∧ Forall commaFree l ∧ String.concat "," l = s.

(** *** Numeric texts

    The shapes of text that the numeric getters read, said without the
    parser: white space, a sign, numerals.  A numeral is the text of a
    [Decimal.uint] of the Standard Library and its value is the library's. *)

(** The code units below 256 that are white space or line terminators: tab,
    line feed, vertical tab, form feed, carriage return, space and the
    no-break space. *)
Definition whiteSpaceCodes : list nat := [9; 10; 11; 12; 13; 32; 160]%nat.

Definition isWhite (c : ascii) : bool :=
  existsb (Nat.eqb (nat_of_ascii c)) whiteSpaceCodes.

Fixpoint allWhite (s : string) : bool :=
  match s with
  | EmptyString => true
  | String c s' => isWhite c && allWhite s'
  end.

Inductive Sign : Type := NoSign | PlusSign | MinusSign.

Definition signText (g : Sign) : string :=
  match g with
  | NoSign => ""
  | PlusSign => "+"
  | MinusSign => "-"
  end.

Definition isMinus (g : Sign) : bool :=
  match g with
  | MinusSign => true
  | _ => false
  end.

Definition numeral (d : Decimal.uint) : string := NilEmpty.string_of_uint d.

Definition numeralValue (d : Decimal.uint) : N := N.of_nat (Nat.of_uint d).

(** The digits of [d] followed by the digits of [d']. *)
Fixpoint appendDigits (d d' : Decimal.uint) : Decimal.uint :=
  match d with
  | Decimal.Nil => d'
  | Decimal.D0 d => Decimal.D0 (appendDigits d d')
  | Decimal.D1 d => Decimal.D1 (appendDigits d d')
  | Decimal.D2 d => Decimal.D2 (appendDigits d d')
  | Decimal.D3 d => Decimal.D3 (appendDigits d d')
  | Decimal.D4 d => Decimal.D4 (appendDigits d d')
  | Decimal.D5 d => Decimal.D5 (appendDigits d d')
  | Decimal.D6 d => Decimal.D6 (appendDigits d d')
  | Decimal.D7 d => Decimal.D7 (appendDigits d d')
  | Decimal.D8 d => Decimal.D8 (appendDigits d d')
  | Decimal.D9 d => Decimal.D9 (appendDigits d d')
  end.

(** The text begins a decimal integer of that sign and value: white space,
    an optional sign, a numeral of at least one digit, and then no further
    digit; what follows is free. *)
Definition IntegerText (s : string) (negative : bool) (value : N) : Prop :=
  ∃ ws g d rest,
    s = ws +:+ signText g +:+ numeral d +:+ rest
    ∧ allWhite ws = true
    ∧ d ≠ Decimal.Nil
    ∧ beginsWithDigit rest = false
    ∧ negative = isMinus g
    ∧ value = numeralValue d.

(** The fraction of a decimal literal: nothing, or a dot and a numeral
    (that may have no digit). *)
Definition fractionText (dot : bool) (f : Decimal.uint) : string :=
  if dot then "." +:+ numeral f else "".

(** The exponent part of a decimal literal: nothing, or [e] or [E], an
    optional sign and a numeral. *)
Inductive Exponent : Type :=
| NoExponent
| ExponentOf (capital : bool) (g : Sign) (d : Decimal.uint).

Definition exponentText (x : Exponent) : string :=
  match x with
  | NoExponent => ""
  | ExponentOf capital g d =>
      (if capital then "E" else "e") +:+ signText g +:+ numeral d
  end.

Definition exponentValue (x : Exponent) : Z :=
  match x with
  | NoExponent => 0
  | ExponentOf _ g d =>
      if isMinus g then - Z.of_N (numeralValue d) else Z.of_N (numeralValue d)
  end.

Definition exponentDigits (x : Exponent) : Prop :=
  match x with
  | NoExponent => True
  | ExponentOf _ _ d => d ≠ Decimal.Nil
  end.

(** The text begins with an exponent part. *)
Definition beginsExponent (s : string) : Prop :=
  ∃ capital g d rest,
    d ≠ Decimal.Nil ∧ s = exponentText (ExponentOf capital g d) +:+ rest.

(** The text begins a decimal literal of that sign and of the value
    [digits * 10^exponent]: white space, an optional sign, integer digits,
    an optional fraction, an optional exponent part, with a digit before or
    after the dot; and the literal cannot be made longer: no digit follows,
    no dot follows integer digits that have neither fraction nor exponent,
    no exponent part follows a literal without one. *)
Definition DecimalText (s : string) (negative : bool) (digits : N) (exponent : Z)
  : Prop :=
  ∃ ws g i dot f x rest,
    s = ws +:+ signText g +:+ numeral i +:+ fractionText dot f
           +:+ exponentText x +:+ rest
    ∧ allWhite ws = true
    ∧ (i ≠ Decimal.Nil ∨ f ≠ Decimal.Nil)
    ∧ (dot = false → f = Decimal.Nil)
    ∧ exponentDigits x
    ∧ beginsWithDigit rest = false
    ∧ (dot = false → x = NoExponent → startsWith rest "." = false)
    ∧ (x = NoExponent → ¬ beginsExponent rest)
    ∧ negative = isMinus g
    ∧ digits = numeralValue (appendDigits i f)
    ∧ exponent = exponentValue x - length (numeral f).

(** The text begins the literal [Infinity] of that sign. *)
Definition InfinityText (s : string) (negative : bool) : Prop :=
  ∃ ws g rest,
    s = ws +:+ signText g +:+ "Infinity" +:+ rest
    ∧ allWhite ws = true
    ∧ negative = isMinus g.

End ConfigSpec.

(** ** Facts about the string primitives *)

Module JSFacts.
Import JS.

Lemma append_cons (c : ascii) (s t : string) :
  String c s +:+ t = String c (s +:+ t).
Proof. reflexivity. Qed.

Lemma append_nil_l (s : string) : "" +:+ s = s.
Proof. reflexivity. Qed.

Lemma append_nil_r (s : string) : s +:+ "" = s.
Proof. induction s as [|c s IH]; [done|]. by rewrite append_cons, IH. Qed.

Lemma append_assoc (s t u : string) : (s +:+ t) +:+ u = s +:+ (t +:+ u).
Proof. induction s as [|c s IH]; [done|]. by rewrite !append_cons, IH. Qed.

Lemma truthy_false (s : string) : truthy s = false ↔ s = "".
Proof. by destruct s. Qed.

Lemma truthy_true (s : string) : truthy s = true ↔ s ≠ "".
Proof. by destruct s. Qed.

(** [split] never returns the empty array. *)
Lemma splitFrom_not_nil (sep s : string) (skip : nat) (cur : string) :
  splitFrom sep s skip cur ≠ [].
Proof.
  revert skip cur. induction s as [|c s IH]; intros skip cur; cbn [splitFrom]; [done|].
  destruct skip as [|k]; [|apply IH].
  destruct (String.prefix sep (String c s)); [done|apply IH].
Qed.

(** Without an occurrence of the separator the text is the only piece. *)
Lemma splitFrom_absent (sep s cur : string) :
  includes s sep = false → splitFrom sep s 0 cur = [cur +:+ s].
Proof.
  revert cur. induction s as [|c s IH]; intros cur Hinc;
    cbn [splitFrom includes] in *.
  - by rewrite append_nil_r.
  - apply orb_false_iff in Hinc as [Hpre Hinc]. rewrite Hpre, IH by done.
    by rewrite append_assoc.
Qed.

Lemma split_absent (s sep : string) : includes s sep = false → split s sep = [s].
Proof. intros H. unfold split. by rewrite splitFrom_absent. Qed.

Lemma split_empty (sep : string) : split "" sep = [""].
Proof. reflexivity. Qed.

(** Lower-casing moves letters only: a colon stays, nothing becomes one. *)
Lemma prefix_nil (s : string) : String.prefix "" s = true.
Proof. by destruct s. Qed.

Lemma lowerChar_colon (c : ascii) : lowerChar c = ":"%char ↔ c = ":"%char.
Proof. destruct c as [[] [] [] [] [] [] [] []]; split; vm_compute; congruence. Qed.

Lemma head_colon_lower (s : string) :
  String.prefix ":" (toLowerCase s) = String.prefix ":" s.
Proof.
  destruct s as [|c s]; [done|]. cbn [String.prefix toLowerCase].
  pose proof (lowerChar_colon c) as [H1 H2].
  destruct (ascii_dec ":" (lowerChar c)) as [e1|n1];
    destruct (ascii_dec ":" c) as [e2|n2]; rewrite ?prefix_nil; try done.
  - exfalso. apply n2. symmetry. by apply H1.
  - exfalso. apply n1. symmetry. by apply H2.
Qed.

Lemma prefix_colons_lower (s : string) :
  String.prefix "::" (toLowerCase s) = String.prefix "::" s.
Proof.
  destruct s as [|c s]; [done|].
  pose proof (head_colon_lower s) as Hs.
  pose proof (lowerChar_colon c) as [H1 H2].
  cbn [String.prefix toLowerCase] in *.
  destruct (ascii_dec ":" (lowerChar c)) as [e1|n1];
    destruct (ascii_dec ":" c) as [e2|n2]; rewrite ?prefix_nil; try done.
  - exfalso. apply n2. symmetry. by apply H1.
  - exfalso. apply n1. symmetry. by apply H2.
Qed.

Lemma includes_colons_lower (s : string) :
  includes (toLowerCase s) "::" = includes s "::".
Proof.
  induction s as [|c s IH]; [done|].
  change (toLowerCase (String c s)) with (String (lowerChar c) (toLowerCase s)).
  cbn [includes]. rewrite IH. f_equal.
  apply (prefix_colons_lower (String c s)).
Qed.

Lemma toLowerCase_append (s t : string) :
  toLowerCase (s +:+ t) = toLowerCase s +:+ toLowerCase t.
Proof.
  induction s as [|c s IH]; [done|].
  rewrite append_cons. cbn [toLowerCase]. by rewrite append_cons, IH.
Qed.

(** A qualified key whose section holds no [::] and does not end in a colon,
    and whose option holds no [::], splits into exactly the two. *)
Lemma splitFrom_qualified (sec opt cur : string) :
  includes sec "::" = false → endsWith sec ":" = false →
  includes opt "::" = false →
  splitFrom "::" (sec +:+ "::" +:+ opt) 0 cur = [cur +:+ sec; opt].
Proof.
  revert cur. induction sec as [|c sec IH]; intros cur Hinc Hend Hopt.
  - rewrite append_nil_l, append_nil_r.
    change ("::" +:+ opt) with (String ":" (String ":" opt)).
    cbn [splitFrom String.prefix String.length Nat.sub].
    destruct (ascii_dec ":" ":"); [|done].
    rewrite prefix_nil. by rewrite splitFrom_absent.
  - cbn [includes endsWith] in Hinc, Hend.
    apply orb_false_iff in Hinc as [Hpre Hinc].
    apply orb_false_iff in Hend as [Heq Hend].
    rewrite append_cons. cbn [splitFrom].
    assert (String.prefix "::" (String c (sec +:+ "::" +:+ opt)) = false) as ->.
    { destruct sec as [|d sec].
      - rewrite append_nil_l.
        change ("::" +:+ opt) with (String ":" (String ":" opt)).
        cbn [String.prefix].
        destruct (ascii_dec ":" c) as [<-|]; [|done]. by vm_compute in Heq.
      - rewrite append_cons. cbn [String.prefix] in Hpre |- *.
        destruct (ascii_dec ":" c); [|done].
        destruct (ascii_dec ":" d); [|done]. by rewrite prefix_nil in Hpre. }
    rewrite IH by done. by rewrite append_assoc.
Qed.

Lemma split_qualified (sec opt : string) :
  includes sec "::" = false → endsWith sec ":" = false →
  includes opt "::" = false →
  split (sec +:+ "::" +:+ opt) "::" = [sec; opt].
Proof. intros. unfold split. by rewrite splitFrom_qualified. Qed.

End JSFacts.

(** ** Facts about the store and the parser *)

Module ConfigFacts.
Import JS JSFacts Config ConfigSpec.

Lemma lastWritten_snoc (h : list Entry) (s k v sec opt : string) :
  lastWritten (h ++ [(s, k, v)]) sec opt =
  if String.eqb s sec && String.eqb k opt then Some v else lastWritten h sec opt.
Proof. unfold lastWritten. by rewrite foldl_app. Qed.

Lemma get_stored (c : Config) (key : string) :
  get c key = default "" (stored c (addressOf key).1 (addressOf key).2).
Proof.
  unfold get, addressOf, stored.
  destruct (2 <=? List.length (split (toLowerCase key) "::"))%nat; cbn [fst snd].
  all: destruct (_ ≫= _) as [[|]|]; done.
Qed.

Lemma construct_consistent : consistent construct.
Proof. intros sec opt. unfold stored. cbn. by rewrite lookup_empty. Qed.

Lemma addConfig_written (c : Config) (section option value : string) :
  written (addConfig c section option value).1 =
  written c ++ [(if String.eqb section "" then DEFAULT_SECTION else section,
                 option, value)].
Proof.
  unfold addConfig.
  set (sec := if String.eqb section "" then DEFAULT_SECTION else section).
  destruct (data c !! sec) as [item|] eqn:Hsec.
  - rewrite bool_decide_true by eauto. cbn [negb]. by rewrite Hsec.
  - rewrite bool_decide_false by (intros [? ?]; congruence). cbn [negb].
    by rewrite lookup_insert_eq.
Qed.

Lemma addConfig_stored (c : Config) (section option value sec opt : string) :
  stored (addConfig c section option value).1 sec opt =
  if String.eqb (if String.eqb section "" then DEFAULT_SECTION else section) sec
     && String.eqb option opt
  then Some value else stored c sec opt.
Proof.
  unfold addConfig, stored.
  set (s := if String.eqb section "" then DEFAULT_SECTION else section).
  destruct (data c !! s) as [item|] eqn:Hs.
  - rewrite bool_decide_true by eauto. cbn [negb]. rewrite Hs. cbn [fst data].
    destruct (String.eqb_spec s sec) as [<-|Hne].
    + rewrite lookup_insert_eq. cbn. rewrite Hs. cbn.
      destruct (String.eqb_spec option opt) as [<-|Hne'].
      * by rewrite lookup_insert_eq.
      * by rewrite lookup_insert_ne.
    + by rewrite lookup_insert_ne.
  - rewrite bool_decide_false by (intros [? ?]; congruence). cbn [negb].
    rewrite lookup_insert_eq. cbn [fst data].
    destruct (String.eqb_spec s sec) as [<-|Hne].
    + rewrite lookup_insert_eq. cbn. rewrite Hs. cbn.
      destruct (String.eqb_spec option opt) as [<-|Hne'].
      * by rewrite lookup_insert_eq.
      * rewrite lookup_insert_ne by done. by rewrite lookup_empty.
    + rewrite !lookup_insert_ne by done. done.
Qed.

Lemma addConfig_consistent (c : Config) (section option value : string) :
  consistent c → consistent (addConfig c section option value).1.
Proof.
  intros Hc sec opt.
  rewrite addConfig_stored, addConfig_written, lastWritten_snoc. by rewrite Hc.
Qed.

(** ** The parser keeps the store and the history in step *)

Lemma bind_Ok {A B : Type} (r : result A) (k : A → result B) (b : B) :
  r ≫= k = Ok b ↔ ∃ a, r = Ok a ∧ k a = Ok b.
Proof.
  destruct r as [a|m]; cbn.
  - split; [eauto|]. by intros (? & [= <-] & ?).
  - split; [done|]. by intros (? & ? & ?).
Qed.

Lemma write_Ok (c c' : Config) (sec : string) (lineNum : nat) (line : string) :
  write c sec lineNum line = Ok c' →
  ∃ key value, c' = (addConfig c sec key value).1
    ∧ key = trim (substring line 0 (indexOf line "="))
    ∧ value = trim (substringFrom line (indexOf line "=" + 1))
    ∧ indexOf line "=" ≠ -1.
Proof.
  unfold write. destruct (Z.eqb_spec (indexOf line "=") (-1)) as [|Hne]; [done|].
  intros (_ & _ & [= <-])%bind_Ok. eauto 6.
Qed.

Lemma write_consistent (c c' : Config) (sec : string) (lineNum : nat) (line : string) :
  write c sec lineNum line = Ok c' → consistent c → consistent c'.
Proof.
  intros (key & value & -> & _)%write_Ok. apply addConfig_consistent.
Qed.

Lemma openSection_consistent (st st' : Locals) (line : string) (lineNumber : nat) :
  openSection st line lineNumber = Ok st' →
  consistent (this st) → consistent (this st').
Proof.
  unfold openSection. intros (st1 & H1 & H2)%bind_Ok Hc.
  assert (consistent (this st1)) as Hc1.
  { destruct (negb _).
    - apply bind_Ok in H1 as (c1 & Hw & [= <-]). by eapply write_consistent.
    - by injection H1 as <-. }
  case_bool_decide; [done|]. by injection H2 as <-.
Qed.

Section Invariant.
Variable linesCount : nat.

Lemma addLine_consistent (st st' : Locals) (line : string) (lineNumber : nat) :
  addLine linesCount st line lineNumber = Ok st' →
  consistent (this st) → consistent (this st').
Proof.
  unfold addLine. destruct (endsWith line _); cbn [orb].
  - destruct (lineNumber =? linesCount)%nat.
    + intros (c1 & Hw & [= <-])%bind_Ok Hc. by eapply write_consistent.
    + by intros [= <-].
  - intros (c1 & Hw & [= <-])%bind_Ok Hc. by eapply write_consistent.
Qed.

Lemma callback_consistent (st st' : Locals) (l : string) (index : nat) :
  callback linesCount st l index = Ok st' →
  consistent (this st) → consistent (this st').
Proof.
  unfold callback. destruct (negb _); [by intros [= <-]|].
  destruct (_ && _); [apply openSection_consistent|apply addLine_consistent].
Qed.

Lemma forEach_consistent (lines : list string) (index : nat) (st st' : Locals) :
  forEach linesCount lines index st = Ok st' →
  consistent (this st) → consistent (this st').
Proof.
  revert index st. induction lines as [|l lines IH]; intros index st; cbn [forEach].
  - by intros [= <-].
  - intros (st1 & H1 & H2)%bind_Ok Hc.
    eapply IH; [done|]. by eapply callback_consistent.
Qed.

End Invariant.

Lemma newConfigFromText_consistent (text : string) (c : Config) :
  newConfigFromText text = Ok c → consistent c.
Proof.
  unfold newConfigFromText, parseBuffer, runBuffer.
  intros (st & Hrun & [= <-])%bind_Ok.
  eapply forEach_consistent; [done|]. apply construct_consistent.
Qed.

(** A qualified key made of a lower-case section and key addresses them. *)
Lemma addressOf_qualified (sec opt : string) :
  toLowerCase sec = sec → toLowerCase opt = opt →
  includes sec "::" = false → endsWith sec ":" = false →
  includes opt "::" = false →
  addressOf (sec +:+ "::" +:+ opt) = (sec, opt).
Proof.
  intros Hsec Hopt Hi He Hio. unfold addressOf.
  rewrite !toLowerCase_append, Hsec, Hopt.
  change (toLowerCase "::") with "::".
  by rewrite split_qualified.
Qed.

Lemma addressOf_unqualified (key : string) :
  includes key "::" = false → addressOf key = (DEFAULT_SECTION, toLowerCase key).
Proof.
  intros H. unfold addressOf.
  rewrite split_absent by (by rewrite includes_colons_lower). done.
Qed.

Lemma takeDigits_nil (r : string) : takeDigits r = "" ↔ beginsWithDigit r = false.
Proof. destruct r as [|c r]; cbn; [done|]. by destruct (isDigit c). Qed.

Lemma dropDigits_no_digit (r : string) : beginsWithDigit r = false → dropDigits r = r.
Proof. destruct r as [|c r]; cbn; [done|]. by intros ->. Qed.

Lemma append_nil (s t : string) : s +:+ t = "" ↔ s = "" ∧ t = "".
Proof.
  destruct s; [rewrite append_nil_l|rewrite append_cons]; split;
    [done|by intros [_ ->]|done|by intros [? _]].
Qed.

(** The numeric parsers on a few texts, with the doubles they return:
    [42] is [5910974510923776 * 2^-47], [0.1] is the double
    [0x3FB999999999999A], [2^53 + 1] is rounded to [2^53], a numeral beyond
    the range is an infinity and one below it a zero. *)
Example parseInt10_examples :
  parseInt10 "42" = SpecFloat.S754_finite false 5910974510923776 (-47)
  ∧ parseInt10 "  -12abc" = SpecFloat.S754_finite true 6755399441055744 (-49)
  ∧ parseInt10 "-0" = SpecFloat.S754_zero true
  ∧ parseInt10 "9007199254740993" = SpecFloat.S754_finite false 4503599627370496 1
  ∧ parseInt10 "abc" = NaN
  ∧ parseInt10 "" = NaN.
Proof. by vm_compute. Qed.

Example parseFloat_examples :
  parseFloat "0.1" = SpecFloat.S754_finite false 7205759403792794 (-56)
  ∧ parseFloat "-3.5x" = SpecFloat.S754_finite true 7881299347898368 (-51)
  ∧ parseFloat "1.7976931348623157e308"
    = SpecFloat.S754_finite false 9007199254740991 971
  ∧ parseFloat "1e400" = SpecFloat.S754_infinity false
  ∧ parseFloat "1e-400" = SpecFloat.S754_zero false
  ∧ parseFloat "5e-324" = SpecFloat.S754_finite false 1 (-1074)
  ∧ parseFloat "-Infinity" = SpecFloat.S754_infinity true
  ∧ parseFloat "." = NaN
  ∧ parseFloat "" = NaN.
Proof. by vm_compute. Qed.



Lemma validateMatcher_defects (s : string) (n : nat) :
  validateMatcher s n =
  match defects s with
  | [] => Ok ()
  | errs => Throw (join errs ", ")
  end.
Proof.
  unfold validateMatcher, defects. fold (invalidProps s).
  destruct (invalidProps s) as [|p l]; cbn [List.length Nat.ltb Nat.leb];
    [rewrite bool_decide_true by done|rewrite bool_decide_false by done];
    destruct (includes s ".."); destruct (endsWith (trim s) ",");
    destruct (Nat.eqb_spec (countChar "(" s) (countChar ")" s));
    rewrite ?bool_decide_true, ?bool_decide_false by done; reflexivity.
Qed.


Lemma write_with_equal (c : Config) (sec : string) (n : nat) (line : string) :
  indexOf line "=" ≠ -1 →
  write c sec n line =
  (if String.eqb sec "matchers" then validateMatcher (valueOf line) n else Ok ())
    ≫= fun _ => Ok (addConfig c sec (keyOf line) (valueOf line)).1.
Proof.
  intros H. unfold write. by destruct (Z.eqb_spec (indexOf line "=") (-1)).
Qed.

Lemma write_without_equal (c : Config) (sec : string) (n : nat) (line : string) :
  indexOf line "=" = -1 →
  write c sec n line = Throw ("parse the content error : line " +:+ ofNat n).
Proof. intros H. unfold write. by rewrite H. Qed.

(** *** Cutting a logical line at its first [=] *)

Lemma substring_prefix (k t : string) :
  String.substring 0 (String.length k) (k +:+ t) = k.
Proof.
  induction k as [|c k IH]; cbn [String.length].
  - rewrite append_nil_l. by destruct t.
  - rewrite append_cons. cbn [String.substring]. by rewrite IH.
Qed.

Lemma substring_all (s : string) : String.substring 0 (String.length s) s = s.
Proof. rewrite <- (append_nil_r s) at 2. apply substring_prefix. Qed.

Lemma substring_skip (k t : string) (m : nat) :
  String.substring (String.length k) m (k +:+ t) = String.substring 0 m t.
Proof.
  induction k as [|c k IH]; [done|].
  rewrite append_cons. cbn [String.length String.substring]. apply IH.
Qed.

Lemma length_append (s t : string) :
  String.length (s +:+ t) = (String.length s + String.length t)%nat.
Proof.
  induction s as [|c s IH]; [done|].
  rewrite append_cons. cbn [String.length]. by rewrite IH.
Qed.

Lemma indexOf_first (k t : string) :
  includes k "=" = false →
  indexOf (k +:+ "=" +:+ t) "=" = Z.of_nat (String.length k).
Proof.
  intros Hk. induction k as [|c k IH].
  - rewrite append_nil_l. change ("=" +:+ t) with (String "=" t).
    cbn [indexOf String.prefix].
    destruct (ascii_dec "=" "="); [|done]. by rewrite prefix_nil.
  - cbn [includes] in Hk. apply orb_false_iff in Hk as [Hpre Hk].
    rewrite append_cons. cbn [indexOf]. cbn [String.prefix] in Hpre |- *.
    destruct (ascii_dec "=" c); [by rewrite prefix_nil in Hpre|].
    rewrite IH by done. cbn [String.length].
    destruct (Z.eqb_spec (Z.of_nat (String.length k)) (-1)); lia.
Qed.

(** A logical line [k=v] whose [k] holds no [=] is cut into [k] and [v],
    each trimmed: the cut is at the first [=]. *)
Lemma cut_at_first_equal (k v : string) :
  includes k "=" = false →
  indexOf (k +:+ "=" +:+ v) "=" ≠ -1
  ∧ keyOf (k +:+ "=" +:+ v) = trim k
  ∧ valueOf (k +:+ "=" +:+ v) = trim v.
Proof.
  intros Hk. unfold keyOf, valueOf. rewrite indexOf_first by done.
  split; [lia|].
  assert (String.length (k +:+ "=" +:+ v)
          = (String.length k + S (String.length v))%nat) as Hlen.
  { by rewrite !length_append. }
  split; f_equal.
  - unfold substring, clamp, length. rewrite Hlen.
    replace (Z.min (Z.max 0 0) _) with 0 by lia.
    replace (Z.min (Z.max (Z.of_nat (String.length k)) 0) _)
      with (Z.of_nat (String.length k)) by lia.
    rewrite Z.min_l, Z.max_r, Z.sub_0_r, Nat2Z.id by lia.
    apply substring_prefix.
  - unfold substringFrom, substring, clamp, length. rewrite Hlen.
    replace (Z.min (Z.max (Z.of_nat (String.length k) + 1) 0) _)
      with (Z.of_nat (S (String.length k))) by lia.
    replace (Z.min (Z.max (Z.of_nat (String.length k + S (String.length v))) 0) _)
      with (Z.of_nat (String.length k + S (String.length v))) by lia.
    rewrite Z.min_l, Z.max_r by lia.
    replace (Z.to_nat (Z.of_nat (String.length k + S (String.length v))
                       - Z.of_nat (S (String.length k))))
      with (String.length v) by lia.
    rewrite Nat2Z.id.
    replace (k +:+ "=" +:+ v) with ((k +:+ "=") +:+ v) by apply append_assoc.
    replace (S (String.length k)) with (String.length (k +:+ "="))
      by (rewrite length_append; cbn; lia).
    rewrite substring_skip. apply substring_all.
Qed.

(** *** The loop over the lines *)

Section Loop.
Variable linesCount : nat.

Lemma forEach_app (l1 l2 : list string) (index : nat) (st : Locals) :
  forEach linesCount (l1 ++ l2) index st =
  forEach linesCount l1 index st ≫= forEach linesCount l2 (index + List.length l1).
Proof.
  revert index st. induction l1 as [|l l1 IH]; intros index st.
  - cbn. by rewrite Nat.add_0_r.
  - cbn [app forEach List.length]. destruct (callback linesCount st l index) as [st1|m]; [|done].
    cbn. rewrite IH. by replace (S index + List.length l1)%nat
      with (index + S (List.length l1))%nat by lia.
Qed.

Lemma isHeader_truthy (n : string) : isHeader n = true → truthy (cleaned n) = true.
Proof.
  unfold isHeader, startsWith. intros [H _]%andb_true_iff.
  by destruct (cleaned n).
Qed.

Lemma isHeader_not_empty (n : string) : isHeader n = true → truthy n = true.
Proof. by destruct n. Qed.

Lemma callback_header (st : Locals) (l : string) (index : nat) :
  isHeader l = true →
  callback linesCount st l index = openSection st (cleaned l) (index + 1).
Proof.
  intros H. unfold callback. fold (cleaned l).
  rewrite (isHeader_truthy _ H). cbn [negb].
  unfold isHeader in H. by rewrite H.
Qed.

Lemma addLine_seen (st st' : Locals) (line : string) (lineNumber : nat) :
  addLine linesCount st line lineNumber = Ok st' → seenSections st' = seenSections st.
Proof.
  unfold addLine. destruct (endsWith line _); cbn [orb].
  - destruct (lineNumber =? linesCount)%nat.
    + by intros (c1 & _ & [= <-])%bind_Ok.
    + by intros [= <-].
  - by intros (c1 & _ & [= <-])%bind_Ok.
Qed.

Lemma callback_seen (st st' : Locals) (l : string) (index : nat) :
  callback linesCount st l index = Ok st' →
  seenSections st ⊆ seenSections st'
  ∧ (isHeader l = true → headerName l ∈ seenSections st').
Proof.
  destruct (isHeader l) eqn:Hh.
  - rewrite callback_header by done. unfold openSection.
    intros (st1 & H1 & H2)%bind_Ok.
    assert (seenSections st1 = seenSections st) as Hseen.
    { destruct (negb _).
      - by apply bind_Ok in H1 as (c1 & _ & [= <-]).
      - by injection H1 as <-. }
    fold (headerName l) in H2. case_bool_decide; [done|].
    injection H2 as <-. cbn. rewrite Hseen.
    split; [apply union_subseteq_l|].
    intros _. by apply elem_of_union_r, elem_of_singleton.
  - unfold callback. fold (cleaned l). unfold isHeader in Hh. rewrite Hh.
    destruct (negb _); [intros [= <-]; by split|].
    intros ->%addLine_seen. by split.
Qed.

Lemma forEach_seen (lines : list string) (index : nat) (st st' : Locals) :
  forEach linesCount lines index st = Ok st' →
  seenSections st ⊆ seenSections st'
  ∧ (∀ l, l ∈ lines → isHeader l = true → headerName l ∈ seenSections st').
Proof.
  revert index st. induction lines as [|l lines IH]; intros index st; cbn [forEach].
  - intros [= <-]. split; [done|]. by intros l ?%elem_of_nil.
  - intros (st1 & H1 & H2)%bind_Ok.
    apply callback_seen in H1 as [Hsub Hhead]. apply IH in H2 as [Hsub' Hall].
    split; [by etrans|].
    intros l' [->|Hin]%elem_of_cons Hh; [|by apply Hall].
    apply Hsub'. by apply Hhead.
Qed.

(** A header whose name was seen: the pending line is flushed, then the
    duplicate is reported; either way the callback raises an error. *)
Lemma callback_duplicate (st : Locals) (l : string) (index : nat) :
  isHeader l = true → headerName l ∈ seenSections st →
  ∃ msg, callback linesCount st l index = Throw msg
    ∧ ((currentLine st = ""
        ∨ succeeds (write (this st) (section st) index (currentLine st))) →
       msg = "Duplicated section: " +:+ headerName l +:+ " at line "
             +:+ ofNat (index + 1)).
Proof.
  intros Hh Hseen. rewrite callback_header by done. unfold openSection.
  fold (headerName l). replace (index + 1 - 1)%nat with index by lia.
  destruct (currentLine st) as [|a cur] eqn:Hcur; cbn [String.length Nat.eqb negb].
  - cbn. rewrite bool_decide_true by done. eauto.
  - destruct (write _ _ _ _) as [c1|m] eqn:Hw; cbn.
    + rewrite bool_decide_true by done. eauto.
    + exists m. split; [done|]. intros [?|[? ?]]; done.
Qed.

Lemma filter_truthy_id (l : list string) :
  Forall (fun s => s ≠ "") l → List.filter truthy l = l.
Proof.
  induction 1 as [|s l Hs _ IH]; [done|]. cbn.
  apply truthy_true in Hs as ->. by rewrite IH.
Qed.

(** On the last of the filtered lines the buffer is written even when the
    line ends in the continuation mark. *)
Lemma addLine_last_line (st : Locals) (line : string) :
  addLine linesCount st line linesCount =
  write (this st) (section st) linesCount
        (currentLine st +:+
         (if endsWith line DEFAULT_MULTI_LINE_SEPARATOR
          then trim (substring line 0 (length line - 1)) else line))
  ≫= fun this' => Ok (mkLocals this' (section st) "" (seenSections st)).
Proof.
  unfold addLine. destruct (endsWith line _); cbn [orb]; [|done].
  by rewrite Nat.eqb_refl.
Qed.

(** A line that is blank once its comment is cut leaves the locals as they
    are, the pending buffer included, wherever the line stands. *)
Lemma callback_blank (st : Locals) (l : string) (index : nat) :
  cleaned l = "" → callback linesCount st l index = Ok st.
Proof. intros H. unfold callback. fold (cleaned l). by rewrite H. Qed.

End Loop.

(** When the last of the filtered lines is not blank, the loop ends with an
    empty buffer: a header flushes what is pending, any other line is
    written there even if it ends in the continuation mark. *)
Lemma runBuffer_flushes_last_line
    (c : Config) (text : string) (ls : list string) (l : string) (st : Locals) :
  linesOf text = ls ++ [l] → cleaned l ≠ "" →
  runBuffer c text = Ok st → currentLine st = "".
Proof.
  intros Hlines Hl. unfold runBuffer. rewrite Hlines, forEach_app.
  intros (st1 & _ & Hlast)%bind_Ok. cbn [forEach] in Hlast.
  apply bind_Ok in Hlast as (st2 & Hcb & [= <-]).
  rewrite length_app, Nat.add_0_l in Hcb. cbn [List.length] in Hcb.
  revert Hcb. unfold callback. fold (cleaned l).
  apply truthy_true in Hl as ->. cbn [negb].
  destruct (_ && _).
  - unfold openSection. intros (st3 & Hflush & Hopen)%bind_Ok.
    assert (currentLine st3 = "") as Hcur.
    { revert Hflush. destruct (currentLine st1) as [|a cur] eqn:Hc;
        cbn [String.length Nat.eqb negb].
      - by intros [= <-].
      - by intros (c1 & _ & [= <-])%bind_Ok. }
    revert Hopen. case_bool_decide; [done|]. by intros [= <-].
  - rewrite addLine_last_line. by intros (c1 & _ & [= <-])%bind_Ok.
Qed.

End ConfigFacts.

(** ** Facts about the coercions *)

Module CoercionFacts.
Import JS JSFacts Config ConfigSpec ConfigFacts.

(** *** Cutting at commas *)

Lemma prefix_comma (c : ascii) (s : string) :
  String.prefix "," (String c s) = bool_decide (","%char = c).
Proof.
  cbn [String.prefix]. rewrite prefix_nil.
  destruct (ascii_dec "," c);
    [by rewrite bool_decide_true|by rewrite bool_decide_false].
Qed.

Lemma commaFree_nil : commaFree "".
Proof. unfold commaFree. cbn. by intros ?%elem_of_nil. Qed.

Lemma commaFree_cons (c : ascii) (s : string) :
  commaFree (String c s) ↔ ","%char ≠ c ∧ commaFree s.
Proof.
  unfold commaFree. cbn [list_ascii_of_string]. rewrite not_elem_of_cons. done.
Qed.

Lemma commaFree_app (s t : string) :
  commaFree (s +:+ t) ↔ commaFree s ∧ commaFree t.
Proof.
  induction s as [|c s IH].
  - rewrite append_nil_l. split; [by split; [apply commaFree_nil|]|by intros [_ ?]].
  - rewrite append_cons, !commaFree_cons, IH. tauto.
Qed.

Lemma includes_commaFree (s : string) : includes s "," = false ↔ commaFree s.
Proof.
  induction s as [|c s IH].
  - split; [intros _; apply commaFree_nil|done].
  - cbn [includes]. rewrite prefix_comma, commaFree_cons, <- IH, orb_false_iff.
    by rewrite bool_decide_eq_false.
Qed.

Lemma join_concat (l : list string) : join l "," = String.concat "," l.
Proof.
  induction l as [|x l IH]; [done|]. cbn [join String.concat].
  destruct l; [done|]. by rewrite IH.
Qed.

Lemma splitFrom_cut (s cur : string) :
  commaFree cur → CutAtCommas (cur +:+ s) (splitFrom "," s 0 cur).
Proof.
  revert cur. induction s as [|c s IH]; intros cur Hcur.
  - rewrite append_nil_r. cbn [splitFrom]. split; [done|]. split; [|done].
    by constructor.
  - cbn [splitFrom]. rewrite prefix_comma. case_bool_decide as Hc.
    + subst c. cbn [String.length Nat.sub].
      destruct (IH "" commaFree_nil) as (Hne & Hall & Hcat).
      rewrite append_nil_l in Hcat.
      split; [done|]. split; [by constructor|].
      cbn [String.concat]. destruct (splitFrom "," s 0 "") eqn:Hl; [done|].
      by rewrite Hcat.
    + specialize (IH (cur +:+ String c "")).
      rewrite append_assoc, append_cons, append_nil_l in IH. apply IH.
      apply commaFree_app. split; [done|].
      apply commaFree_cons. split; [done|apply commaFree_nil].
Qed.

Lemma split_cut (s : string) : CutAtCommas s (split s ",").
Proof.
  unfold split. rewrite <- (append_nil_l s) at 1.
  apply splitFrom_cut, commaFree_nil.
Qed.

Lemma splitFrom_piece (a t cur : string) :
  commaFree a →
  splitFrom "," (a +:+ "," +:+ t) 0 cur = (cur +:+ a) :: splitFrom "," t 0 "".
Proof.
  revert cur. induction a as [|c a IH]; intros cur Ha.
  - rewrite append_nil_l, append_nil_r. change ("," +:+ t) with (String "," t).
    cbn [splitFrom]. by rewrite prefix_comma, bool_decide_true.
  - apply commaFree_cons in Ha as [Hc Ha].
    rewrite append_cons. cbn [splitFrom].
    rewrite prefix_comma, bool_decide_false by done.
    rewrite IH by done. by rewrite append_assoc.
Qed.

Lemma cut_unique (s : string) (l : list string) :
  CutAtCommas s l → split s "," = l.
Proof.
  intros (Hne & Hl & <-). induction Hl as [|x l Hx Hl IH]; [done|]. clear Hne.
  destruct l as [|y l].
  - by apply split_absent, includes_commaFree.
  - cbn [String.concat]. unfold split. rewrite splitFrom_piece by done.
    rewrite append_nil_l. f_equal. by apply IH.
Qed.

(** *** White space *)

Lemma isWhiteSpace_isWhite (c : ascii) : isWhiteSpace c = isWhite c.
Proof. by destruct c as [[] [] [] [] [] [] [] []]. Qed.

(** *** Rounding never gives NaN *)

Lemma shr_1_nonneg (mrs : SpecFloat.shr_record) :
  0 ≤ SpecFloat.shr_m mrs → 0 ≤ SpecFloat.shr_m (SpecFloat.shr_1 mrs).
Proof. destruct mrs as [[|[p|p|]|p] r s]; cbn; lia. Qed.

Lemma iter_pos_nonneg (p : positive) (mrs : SpecFloat.shr_record) :
  0 ≤ SpecFloat.shr_m mrs →
  0 ≤ SpecFloat.shr_m (SpecFloat.iter_pos SpecFloat.shr_1 p mrs).
Proof.
  revert mrs. induction p as [p IH|p IH|]; intros mrs H; cbn [SpecFloat.iter_pos].
  - by apply IH, IH, shr_1_nonneg.
  - by apply IH, IH.
  - by apply shr_1_nonneg.
Qed.

Lemma shr_fexp_nonneg (m e : Z) (l : SpecFloat.location) :
  0 ≤ m → 0 ≤ SpecFloat.shr_m (SpecFloat.shr_fexp prec emax m e l).1.
Proof.
  intros Hm. unfold SpecFloat.shr_fexp, SpecFloat.shr.
  assert (0 ≤ SpecFloat.shr_m (SpecFloat.shr_record_of_loc m l)) as H0.
  { by destruct l as [|[]]. }
  destruct (_ - e) as [|p|p]; cbn [fst]; [done| |done].
  by apply iter_pos_nonneg.
Qed.

Lemma binary_round_aux_not_nan (sx : bool) (mx ex : Z) (lx : SpecFloat.location) :
  0 ≤ mx → SpecFloat.binary_round_aux prec emax sx mx ex lx ≠ SpecFloat.S754_nan.
Proof.
  intros Hm. unfold SpecFloat.binary_round_aux.
  pose proof (shr_fexp_nonneg mx ex lx Hm) as H1.
  destruct (SpecFloat.shr_fexp prec emax mx ex lx) as [mrs' e']. cbn [fst] in H1.
  set (m1 := SpecFloat.round_nearest_even _ _).
  assert (0 ≤ m1) as Hm1.
  { subst m1. unfold SpecFloat.round_nearest_even.
    destruct (SpecFloat.loc_of_shr_record mrs') as [|[]]; try lia.
    destruct (Z.even _); lia. }
  pose proof (shr_fexp_nonneg m1 e' SpecFloat.loc_Exact Hm1) as H2.
  destruct (SpecFloat.shr_fexp prec emax m1 e' SpecFloat.loc_Exact) as [mrs'' e''].
  cbn [fst] in H2. destruct (SpecFloat.shr_m mrs'') as [|p|p]; [done| |lia].
  by destruct (_ <=? _).
Qed.

Lemma roundDecimal_not_NaN (negative : bool) (digits : N) (exponent : Z) :
  roundDecimal negative digits exponent ≠ NaN.
Proof.
  unfold roundDecimal, NaN. destruct digits as [|p]; [done|].
  unfold SpecFloat.SFdiv, SpecFloat.SFdiv_core_binary.
  set (m1 := Z.pos (Z.to_pos _)). set (m2 := Z.pos (Z.to_pos _)).
  set (m' := match _ with Z0 => m1 | Z.pos _ => _ | Z.neg _ => 0 end).
  assert (0 ≤ m') as Hm'.
  { subst m'. destruct (_ - _ - _) as [|q|q]; [done| |done].
    apply Z.shiftl_nonneg. done. }
  pose proof (Z_div_mod m' m2 ltac:(done)) as Hdiv.
  destruct (Z.div_eucl m' m2) as [q r]. destruct Hdiv as [Heq Hr].
  apply binary_round_aux_not_nan. subst m2. nia.
Qed.

Lemma toNumber_NaN (l : literal) : toNumber l = NaN ↔ l = NoLiteral.
Proof.
  destruct l as [|neg|neg m e]; cbn; [done|done|].
  split; [|done]. by intros ?%roundDecimal_not_NaN.
Qed.


(** *** White space, signs and numerals *)

Lemma digit_plain (c : ascii) :
  isDigit c = true →
  isWhiteSpace c = false ∧ c ≠ "+"%char ∧ c ≠ "-"%char ∧ c ≠ "."%char
  ∧ c ≠ "I"%char ∧ c ≠ "e"%char ∧ c ≠ "E"%char.
Proof. by destruct c as [[] [] [] [] [] [] [] []]. Qed.

Lemma white_split (s : string) :
  ∃ ws, s = ws +:+ trimStart s ∧ allWhite ws = true.
Proof.
  induction s as [|c s (ws & IH & Hws)]; [by exists ""|].
  cbn [trimStart]. destruct (isWhiteSpace c) eqn:Hc.
  - exists (String c ws). rewrite append_cons, <- IH. cbn [allWhite].
    by rewrite <- isWhiteSpace_isWhite, Hc.
  - by exists "".
Qed.

Lemma trimStart_white (ws t : string) :
  allWhite ws = true → trimStart (ws +:+ t) = trimStart t.
Proof.
  induction ws as [|c ws IH]; [by rewrite append_nil_l|].
  cbn [allWhite]. rewrite <- isWhiteSpace_isWhite. intros [Hc Hws]%andb_true_iff.
  rewrite append_cons. cbn [trimStart]. rewrite Hc. by apply IH.
Qed.

Lemma trimStart_cons (c : ascii) (t : string) :
  isWhiteSpace c = false → trimStart (String c t) = String c t.
Proof. intros H. cbn [trimStart]. by rewrite H. Qed.

Lemma stripSign_split (r : string) :
  ∃ g, r = signText g +:+ (stripSign r).2 ∧ (stripSign r).1 = isMinus g.
Proof.
  destruct r as [|c r]; [by exists NoSign|].
  destruct (ascii_dec c "-") as [->|Hm]; [by exists MinusSign|].
  destruct (ascii_dec c "+") as [->|Hp]; [by exists PlusSign|].
  exists NoSign. by destruct c as [[] [] [] [] [] [] [] []].
Qed.

Lemma stripSign_plain (c : ascii) (t : string) :
  c ≠ "+"%char → c ≠ "-"%char → stripSign (String c t) = (false, String c t).
Proof. intros Hp Hm. by destruct c as [[] [] [] [] [] [] [] []]. Qed.

Lemma uint_nil_dec (d : Decimal.uint) : {d = Decimal.Nil} + {d ≠ Decimal.Nil}.
Proof. destruct d; [by left|by right..]. Qed.

Lemma numeral_nil (d : Decimal.uint) : numeral d = "" ↔ d = Decimal.Nil.
Proof. by destruct d. Qed.

Lemma numeral_head (d : Decimal.uint) :
  d ≠ Decimal.Nil → ∃ c t, numeral d = String c t ∧ isDigit c = true.
Proof. destruct d; [done|..]; intros _; by eexists _, _. Qed.

Lemma takeDigits_is_numeral (r : string) : ∃ d, takeDigits r = numeral d.
Proof.
  induction r as [|c r (d & IH)]; [by exists Decimal.Nil|].
  cbn [takeDigits]. destruct (isDigit c) eqn:Hc; [|by exists Decimal.Nil].
  rewrite IH.
  destruct c as [[] [] [] [] [] [] [] []]; try discriminate Hc;
    first [by exists (Decimal.D0 d)|by exists (Decimal.D1 d)|by exists (Decimal.D2 d)
          |by exists (Decimal.D3 d)|by exists (Decimal.D4 d)|by exists (Decimal.D5 d)
          |by exists (Decimal.D6 d)|by exists (Decimal.D7 d)|by exists (Decimal.D8 d)
          |by exists (Decimal.D9 d)].
Qed.

Lemma take_drop (r : string) : r = takeDigits r +:+ dropDigits r.
Proof.
  induction r as [|c r IH]; [done|]. cbn [takeDigits dropDigits].
  destruct (isDigit c); [|done]. by rewrite append_cons, <- IH.
Qed.

Lemma dropDigits_stops (r : string) : beginsWithDigit (dropDigits r) = false.
Proof.
  induction r as [|c r IH]; [done|]. cbn [dropDigits].
  by destruct (isDigit c) eqn:Hc; [|cbn].
Qed.

Lemma takeDigits_numeral (d : Decimal.uint) (u : string) :
  beginsWithDigit u = false → takeDigits (numeral d +:+ u) = numeral d.
Proof.
  intros Hu. unfold numeral.
  induction d; cbn [NilEmpty.string_of_uint];
    [rewrite append_nil_l; by apply takeDigits_nil|..];
    rewrite append_cons; cbn [takeDigits];
    (change (isDigit _) with true; cbn iota; by rewrite IHd).
Qed.

Lemma dropDigits_numeral (d : Decimal.uint) (u : string) :
  beginsWithDigit u = false → dropDigits (numeral d +:+ u) = u.
Proof.
  intros Hu. unfold numeral.
  induction d; cbn [NilEmpty.string_of_uint];
    [rewrite append_nil_l; by apply dropDigits_no_digit|..];
    rewrite append_cons; cbn [dropDigits];
    (change (isDigit _) with true; cbn iota; by rewrite IHd).
Qed.

Lemma digitsValueFrom_numeral (d : Decimal.uint) (acc : nat) :
  digitsValueFrom (N.of_nat acc) (numeral d) = N.of_nat (Nat.of_uint_acc d acc).
Proof.
  unfold numeral.
  revert acc. induction d as [|d IH|d IH|d IH|d IH|d IH|d IH|d IH|d IH|d IH|d IH];
    intros acc; cbn [NilEmpty.string_of_uint digitsValueFrom Nat.of_uint_acc];
    [done|..]; rewrite <- IH; f_equal; rewrite Nat.tail_mul_spec;
    vm_compute (N.of_nat (nat_of_ascii _ - 48)); lia.
Qed.

Lemma digitsValue_numeral (d : Decimal.uint) :
  digitsValue (numeral d) = numeralValue d.
Proof. apply (digitsValueFrom_numeral d 0). Qed.

Lemma numeral_append (i f : Decimal.uint) :
  numeral i +:+ numeral f = numeral (appendDigits i f).
Proof.
  unfold numeral.
  induction i; cbn [NilEmpty.string_of_uint appendDigits];
    [by rewrite append_nil_l|..]; by rewrite append_cons, IHi.
Qed.

Lemma appendDigits_nil (i f : Decimal.uint) :
  appendDigits i f = Decimal.Nil ↔ i = Decimal.Nil ∧ f = Decimal.Nil.
Proof.
  destruct i; cbn; [split; [done|by intros [_ ?]]|..];
    (split; [done|by intros [? _]]).
Qed.

(** *** What [readInt10] reads *)

Lemma readInt10_sound (s : string) (negative : bool) (value : N) :
  IntegerText s negative value → readInt10 s = DecimalLiteral negative value 0.
Proof.
  intros (ws & g & d & rest & -> & Hws & Hd & Hrest & -> & ->).
  unfold readInt10. rewrite trimStart_white by done.
  destruct (numeral_head d Hd) as (c & t & Hn & Hc).
  destruct (digit_plain c Hc) as (Hw & Hp & Hm & _).
  assert (stripSign (trimStart (signText g +:+ numeral d +:+ rest))
          = (isMinus g, numeral d +:+ rest)) as ->.
  { destruct g; cbn [signText]; rewrite ?append_nil_l, ?append_cons.
    - rewrite Hn, append_cons, trimStart_cons by done. by apply stripSign_plain.
    - by rewrite trimStart_cons.
    - by rewrite trimStart_cons. }
  rewrite takeDigits_numeral by done. rewrite Hn. cbn match.
  by rewrite <- Hn, digitsValue_numeral.
Qed.

Lemma readInt10_complete (s : string) (negative : bool) (value : N) (e : Z) :
  readInt10 s = DecimalLiteral negative value e →
  IntegerText s negative value ∧ e = 0.
Proof.
  unfold readInt10. intros H.
  destruct (white_split s) as (ws & Hs & Hws).
  destruct (stripSign_split (trimStart s)) as (g & Hr & Hg).
  destruct (stripSign (trimStart s)) as [neg r]. cbn [fst snd] in *.
  destruct (takeDigits_is_numeral r) as (d & Hd).
  assert (d ≠ Decimal.Nil ∧ negative = neg ∧ value = digitsValue (takeDigits r)
          ∧ e = 0) as (Hne & -> & -> & ->).
  { destruct (takeDigits r) eqn:Ht; [done|]. injection H as <- <- <-.
    split; [|done]. intros ->. by rewrite Hd in Ht. }
  split; [|done]. exists ws, g, d, (dropDigits r).
  split; [|split; [done|split; [done|split; [apply dropDigits_stops|split]]]].
  - rewrite Hs at 1. f_equal. rewrite Hr at 1. f_equal.
    rewrite <- Hd. apply take_drop.
  - done.
  - by rewrite Hd, digitsValue_numeral.
Qed.


(** *** What [readFloat] reads *)

Lemma prefix_append (p r : string) : String.prefix p (p +:+ r) = true.
Proof.
  induction p as [|c p IH]; [by rewrite append_nil_l, prefix_nil|].
  rewrite append_cons. cbn [String.prefix]. by destruct (ascii_dec c c).
Qed.

Lemma prefix_split (p r : string) :
  String.prefix p r = true → ∃ rest, r = p +:+ rest.
Proof.
  revert r. induction p as [|c p IH]; intros r; [by exists r|].
  destruct r as [|c' r]; [done|]. cbn [String.prefix].
  destruct (ascii_dec c c') as [->|]; [|done].
  intros (rest & ->)%IH. exists rest. by rewrite append_cons.
Qed.

Lemma prefix_head (p : string) (c c' : ascii) (r : string) :
  c ≠ c' → String.prefix (String c p) (String c' r) = false.
Proof. intros H. cbn [String.prefix]. by destruct (ascii_dec c c'). Qed.

(** The sign in front of a text that begins with neither white space nor a
    sign is the one [stripSign] reads after [trimStart]. *)
Lemma unsigned_body (g : Sign) (c : ascii) (t : string) :
  isWhiteSpace c = false → c ≠ "+"%char → c ≠ "-"%char →
  stripSign (trimStart (signText g +:+ String c t)) = (isMinus g, String c t).
Proof.
  intros Hw Hp Hm.
  destruct g; cbn [signText]; rewrite ?append_nil_l, ?append_cons.
  - rewrite trimStart_cons by done. by apply stripSign_plain.
  - by rewrite trimStart_cons.
  - by rewrite trimStart_cons.
Qed.

Lemma fraction_absent (r : string) :
  startsWith r "." = false →
  match r with
  | String "."%char r' => (takeDigits r', dropDigits r')
  | _ => (EmptyString, r)
  end = (EmptyString, r).
Proof.
  destruct r as [|c r]; [done|]. unfold startsWith.
  destruct (ascii_dec c ".") as [->|Hc].
  - cbn [String.prefix]. destruct (ascii_dec "." "."); [by rewrite prefix_nil|done].
  - intros _. by destruct c as [[] [] [] [] [] [] [] []].
Qed.

Lemma exponent_head (capital : bool) (g : Sign) (d : Decimal.uint) (rest : string) :
  ∃ c, exponentText (ExponentOf capital g d) +:+ rest
       = String c (signText g +:+ numeral d +:+ rest)
       ∧ (c = "e"%char ∨ c = "E"%char).
Proof.
  cbn [exponentText].
  destruct capital; eexists;
    (split; [by rewrite !append_cons, !append_nil_l, append_assoc|]); auto.
Qed.

Lemma exponentPart_of (c : ascii) (g : Sign) (d : Decimal.uint) (rest : string) :
  c = "e"%char ∨ c = "E"%char → d ≠ Decimal.Nil →
  beginsWithDigit rest = false →
  exponentPart (String c (signText g +:+ numeral d +:+ rest))
  = exponentValue (ExponentOf false g d).
Proof.
  intros Hc Hd Hrest. cbn [exponentPart exponentValue].
  assert (Ascii.eqb c "e" || Ascii.eqb c "E" = true) as ->.
  { by destruct Hc as [-> | ->]. }
  destruct (numeral_head d Hd) as (c' & t & Hn & Hc').
  destruct (digit_plain c' Hc') as (Hw & Hp & Hm & _).
  assert (stripSign (signText g +:+ numeral d +:+ rest)
          = (isMinus g, numeral d +:+ rest)) as ->.
  { rewrite Hn, append_cons.
    rewrite <- (unsigned_body g c' (t +:+ rest) Hw Hp Hm).
    f_equal. destruct g; cbn [signText]; rewrite ?append_nil_l, ?append_cons;
      by rewrite trimStart_cons. }
  rewrite takeDigits_numeral by done. rewrite Hn. cbn match.
  by rewrite <- Hn, digitsValue_numeral.
Qed.

Lemma exponentPart_absent (r : string) :
  ¬ beginsExponent r → exponentPart r = 0.
Proof.
  intros Hno. destruct r as [|c r]; [done|]. cbn [exponentPart].
  destruct (Ascii.eqb c "e" || Ascii.eqb c "E") eqn:Hc; [|done].
  destruct (stripSign_split r) as (g & Hr & Hg).
  destruct (stripSign r) as [neg r']. cbn [fst snd] in *.
  destruct (takeDigits_is_numeral r') as (d & Hd).
  destruct (uint_nil_dec d) as [->|Hne]; [by rewrite Hd|].
  exfalso. apply Hno.
  exists (Ascii.eqb c "E"), g, d, (dropDigits r'). split; [done|].
  cbn [exponentText]. rewrite Hr at 1. rewrite (take_drop r') at 1. rewrite Hd.
  apply orb_true_iff in Hc as [->%Ascii.eqb_eq | ->%Ascii.eqb_eq];
    [change (Ascii.eqb "e" "E") with false|change (Ascii.eqb "E" "E") with true];
    cbn iota; by rewrite !append_cons, !append_nil_l, append_assoc.
Qed.

Lemma exponentPart_sound (x : Exponent) (rest : string) :
  exponentDigits x → beginsWithDigit rest = false →
  (x = NoExponent → ¬ beginsExponent rest) →
  exponentPart (exponentText x +:+ rest) = exponentValue x.
Proof.
  intros Hx Hrest Hno. destruct x as [|capital g d].
  - cbn [exponentText exponentValue]. rewrite append_nil_l.
    by apply exponentPart_absent, Hno.
  - destruct (exponent_head capital g d rest) as (c & -> & Hc).
    by rewrite exponentPart_of.
Qed.

(** Any text that begins with no digit is an exponent part, or none, and a
    rest. *)
Lemma exponentPart_cases (r : string) :
  beginsWithDigit r = false →
  ∃ x rest,
    r = exponentText x +:+ rest ∧ exponentDigits x
    ∧ beginsWithDigit rest = false
    ∧ (x = NoExponent → ¬ beginsExponent rest)
    ∧ exponentPart r = exponentValue x.
Proof.
  intros Hr.
  destruct r as [|c r].
  { exists NoExponent, "". split; [done|split; [done|split; [done|split; [|done]]]].
    intros _ (capital & g & d & rest & _ & H).
    by destruct (exponent_head capital g d rest) as (c & Hc & _); rewrite Hc in H. }
  destruct (stripSign_split r) as (g & Hs & Hg).
  destruct (takeDigits_is_numeral (stripSign r).2) as (d & Hd).
  destruct (Ascii.eqb c "e" || Ascii.eqb c "E") eqn:Hc;
    [destruct (uint_nil_dec d) as [->|Hne]|].
  - exists NoExponent, (String c r).
    split; [done|split; [done|split; [done|split; [|]]]].
    + intros _ (capital & g' & d' & rest & Hd' & H).
      destruct (exponent_head capital g' d' rest) as (c' & Hc' & _).
      rewrite Hc' in H. injection H as -> ->.
      destruct (numeral_head d' Hd') as (c'' & t & Hn & Hc'').
      destruct (digit_plain c'' Hc'') as (Hw & Hp & Hm & _).
      assert (stripSign (signText g' +:+ numeral d' +:+ rest)
              = (isMinus g', numeral d' +:+ rest)) as Heq.
      { rewrite Hn, append_cons.
        rewrite <- (unsigned_body g' c'' (t +:+ rest) Hw Hp Hm).
        f_equal. destruct g'; cbn [signText]; rewrite ?append_nil_l, ?append_cons;
          by rewrite trimStart_cons. }
      rewrite Heq in Hd. cbn [snd] in Hd.
      rewrite Hn, append_cons in Hd. cbn [takeDigits] in Hd. by rewrite Hc'' in Hd.
    + cbn [exponentPart exponentValue]. rewrite Hc.
      destruct (stripSign r) as [neg r']. cbn [snd] in Hd. by rewrite Hd.
  - exists (ExponentOf (Ascii.eqb c "E") g d), (dropDigits (stripSign r).2).
    assert (c = "e"%char ∨ c = "E"%char) as Hc'.
    { apply orb_true_iff in Hc as [->%Ascii.eqb_eq | ->%Ascii.eqb_eq]; auto. }
    assert (String c r = String c (signText g +:+ numeral d
                                    +:+ dropDigits (stripSign r).2)) as Heq.
    { f_equal. rewrite Hs at 1. f_equal. rewrite <- Hd. apply take_drop. }
    split; [|split; [done|split; [apply dropDigits_stops|split; [done|]]]].
    + rewrite Heq at 1. cbn [exponentText].
      destruct Hc' as [-> | ->];
        [change (Ascii.eqb "e" "E") with false|change (Ascii.eqb "E" "E") with true];
        cbn iota; by rewrite !append_cons, !append_nil_l, append_assoc.
    + rewrite Heq. rewrite exponentPart_of; [done|done|done|apply dropDigits_stops].
  - exists NoExponent, (String c r).
    split; [done|split; [done|split; [done|split; [|]]]].
    + intros _ (capital & g' & d' & rest & Hd' & H).
      destruct (exponent_head capital g' d' rest) as (c' & Hc' & [-> | ->]);
        rewrite Hc' in H; by injection H as -> _.
    + cbn [exponentPart exponentValue]. by rewrite Hc.
Qed.


Lemma readFloat_Infinity (s : string) (negative : bool) :
  InfinityText s negative → readFloat s = InfinityLiteral negative.
Proof.
  intros (ws & g & rest & -> & Hws & ->).
  unfold readFloat. rewrite trimStart_white by done.
  change ("Infinity" +:+ rest) with (String "I" ("nfinity" +:+ rest)).
  rewrite unsigned_body by done.
  change (String "I" ("nfinity" +:+ rest)) with ("Infinity" +:+ rest).
  by rewrite prefix_append.
Qed.

Lemma readFloat_Infinity_text (s : string) (negative : bool) :
  readFloat s = InfinityLiteral negative → InfinityText s negative.
Proof.
  unfold readFloat. intros H.
  destruct (white_split s) as (ws & Hs & Hws).
  destruct (stripSign_split (trimStart s)) as (g & Hr & Hg).
  destruct (stripSign (trimStart s)) as [neg r]. cbn [fst snd] in *.
  destruct (String.prefix "Infinity" r) eqn:Hp.
  - injection H as <-. apply prefix_split in Hp as (rest & ->).
    exists ws, g, rest. split; [|done]. rewrite Hs at 1. by rewrite Hr at 1.
  - destruct (match dropDigits r with
              | String "."%char r' => (takeDigits r', dropDigits r')
              | _ => (EmptyString, dropDigits r)
              end) as [fp r2].
    by destruct (takeDigits r +:+ fp).
Qed.

(** The digits and the fraction of a decimal literal begin with a digit or
    with the dot. *)
Lemma decimal_head (i f : Decimal.uint) (dot : bool) (u : string) :
  i ≠ Decimal.Nil ∨ f ≠ Decimal.Nil → (dot = false → f = Decimal.Nil) →
  ∃ c t, numeral i +:+ fractionText dot f +:+ u = String c t
         ∧ (isDigit c = true ∨ c = "."%char).
Proof.
  intros Hif Hdot. destruct (uint_nil_dec i) as [->|Hi].
  - destruct dot; [|by destruct Hif as [?|?]; [|rewrite Hdot in *]].
    cbn [numeral NilEmpty.string_of_uint fractionText].
    rewrite append_nil_l, append_assoc, append_cons. eexists _, _. by split; [|right].
  - destruct (numeral_head i Hi) as (c & t & -> & Hc).
    rewrite append_cons. eexists _, _. by split; [|left].
Qed.

Lemma head_plain (c : ascii) :
  isDigit c = true ∨ c = "."%char →
  isWhiteSpace c = false ∧ c ≠ "+"%char ∧ c ≠ "-"%char ∧ c ≠ "I"%char.
Proof.
  intros [H | ->]; [|done]. by destruct (digit_plain c H) as (? & ? & ? & ? & ? & _).
Qed.

(** The fraction: what [readFloat] reads after the integer digits. *)
Lemma fraction_read (dot : bool) (f : Decimal.uint) (x : Exponent) (rest : string) :
  (dot = false → f = Decimal.Nil) → exponentDigits x →
  beginsWithDigit rest = false →
  (dot = false → x = NoExponent → startsWith rest "." = false) →
  beginsWithDigit (fractionText dot f +:+ exponentText x +:+ rest) = false
  ∧ match fractionText dot f +:+ exponentText x +:+ rest with
    | String "."%char r' => (takeDigits r', dropDigits r')
    | _ => (EmptyString, fractionText dot f +:+ exponentText x +:+ rest)
    end = (numeral f, exponentText x +:+ rest).
Proof.
  intros Hdot Hx Hrest Hnodot.
  assert (beginsWithDigit (exponentText x +:+ rest) = false) as Hxr.
  { destruct x as [|capital g d]; [by rewrite append_nil_l|].
    by destruct (exponent_head capital g d rest) as (c & -> & [-> | ->]). }
  destruct dot.
  - cbn [fractionText]. rewrite append_assoc, append_cons, append_nil_l.
    split; [done|]. by rewrite takeDigits_numeral, dropDigits_numeral.
  - cbn [fractionText]. rewrite append_nil_l, (Hdot eq_refl). split; [done|].
    apply fraction_absent.
    destruct x as [|capital g d]; [rewrite append_nil_l; by apply Hnodot|].
    by destruct (exponent_head capital g d rest) as (c & -> & [-> | ->]).
Qed.

Lemma readFloat_sound (s : string) (negative : bool) (digits : N) (exponent : Z) :
  DecimalText s negative digits exponent →
  readFloat s = DecimalLiteral negative digits exponent.
Proof.
  intros (ws & g & i & dot & f & x & rest & -> & Hws & Hif & Hdot & Hx & Hrest
          & Hnodot & Hnoexp & -> & -> & ->).
  unfold readFloat. rewrite trimStart_white by done.
  destruct (decimal_head i f dot (exponentText x +:+ rest) Hif Hdot)
    as (c & t & Hbody & Hc).
  destruct (head_plain c Hc) as (Hw & Hp & Hm & HI).
  rewrite Hbody, unsigned_body by done.
  rewrite prefix_head by done. rewrite <- Hbody.
  destruct (fraction_read dot f x rest Hdot Hx Hrest Hnodot) as (Hfr & Hmatch).
  rewrite takeDigits_numeral, dropDigits_numeral by done.
  rewrite Hmatch, numeral_append, exponentPart_sound by done.
  assert (appendDigits i f ≠ Decimal.Nil) as Hne.
  { rewrite appendDigits_nil. intros [-> ->]. by destruct Hif. }
  destruct (numeral_head _ Hne) as (c' & t' & Hn & _). rewrite Hn. cbn match.
  by rewrite <- Hn, digitsValue_numeral.
Qed.

Lemma readFloat_complete (s : string) (negative : bool) (digits : N) (exponent : Z) :
  readFloat s = DecimalLiteral negative digits exponent →
  DecimalText s negative digits exponent.
Proof.
  unfold readFloat. intros H.
  destruct (white_split s) as (ws & Hs & Hws).
  destruct (stripSign_split (trimStart s)) as (g & Hr & Hg).
  destruct (stripSign (trimStart s)) as [neg r]. cbn [fst snd] in *.
  destruct (String.prefix "Infinity" r); [done|].
  destruct (takeDigits_is_numeral r) as (i & Hi).
  pose proof (take_drop r) as Hsplit. pose proof (dropDigits_stops r) as Hstop.
  rewrite Hi in *.
  assert (∃ dot f r2,
    dropDigits r = fractionText dot f +:+ r2
    ∧ (dot = false → f = Decimal.Nil)
    ∧ (dot = false → startsWith r2 "." = false)
    ∧ beginsWithDigit r2 = false
    ∧ match dropDigits r with
      | String "."%char r' => (takeDigits r', dropDigits r')
      | _ => (EmptyString, dropDigits r)
      end = (numeral f, r2)) as (dot & f & r2 & Hr1 & Hdot & Hnodot & Hr2 & Hmatch).
  { destruct (startsWith (dropDigits r) ".") eqn:Hd.
    - apply prefix_split in Hd as (r' & Hd).
      rewrite append_cons, append_nil_l in Hd. rewrite Hd.
      destruct (takeDigits_is_numeral r') as (f & Hf).
      exists true, f, (dropDigits r'). cbn [fractionText].
      split; [|split; [done|split; [done|split; [apply dropDigits_stops|by rewrite Hf]]]].
      by rewrite append_assoc, append_cons, append_nil_l, <- Hf, <- take_drop.
    - exists false, Decimal.Nil, (dropDigits r). cbn [fractionText].
      split; [done|split; [done|split; [done|split; [done|]]]].
      by apply fraction_absent. }
  rewrite Hmatch in H.
  destruct (exponentPart_cases r2 Hr2) as (x & rest & Hx & Hxd & Hrest & Hnoexp & Hv).
  rewrite numeral_append in H.
  assert (appendDigits i f ≠ Decimal.Nil ∧ negative = neg
          ∧ digits = numeralValue (appendDigits i f)
          ∧ exponent = exponentPart r2 - length (numeral f))
    as (Hne & -> & -> & ->).
  { destruct (uint_nil_dec (appendDigits i f)) as [Hnil|Hne]; [by rewrite Hnil in H|].
    destruct (numeral_head _ Hne) as (c' & t' & Hn & _). rewrite Hn in H.
    cbn match in H. rewrite <- Hn, digitsValue_numeral in H. by injection H as <- <- <-. }
  exists ws, g, i, dot, f, x, rest.
  split; [|split; [done|split; [|split; [done|split; [done|split; [done|split;
    [|split; [done|split; [done|split; [done|by rewrite Hv]]]]]]]]]].
  - rewrite Hs at 1. f_equal. rewrite Hr at 1. f_equal.
    rewrite Hsplit at 1. f_equal. rewrite Hr1. f_equal. done.
  - destruct (uint_nil_dec i) as [->|?]; [|by left]. right. intros ->. by apply Hne.
  - intros Hd ->. cbn [exponentText] in Hx. rewrite append_nil_l in Hx. subst rest.
    by apply Hnodot.
Qed.

(** *** The getters' parsers, said by the texts *)

Lemma parseInt10_IntegerText (s : string) (negative : bool) (value : N) :
  IntegerText s negative value → parseInt10 s = roundDecimal negative value 0.
Proof. intros H. unfold parseInt10. by rewrite (readInt10_sound s negative value H). Qed.

Lemma parseInt10_NaN (s : string) :
  parseInt10 s = NaN ↔ ∀ negative value, ¬ IntegerText s negative value.
Proof.
  unfold parseInt10. rewrite toNumber_NaN. split.
  - intros H negative value Ht. by rewrite (readInt10_sound _ _ _ Ht) in H.
  - intros H. destruct (readInt10 s) as [|neg|neg m e] eqn:Hread; [done| |].
    + unfold readInt10 in Hread. destruct (stripSign (trimStart s)) as [n r].
      by destruct (takeDigits r).
    + by apply readInt10_complete in Hread as [?%H _].
Qed.

Lemma parseFloat_DecimalText (s : string) (negative : bool) (digits : N) (exponent : Z) :
  DecimalText s negative digits exponent →
  parseFloat s = roundDecimal negative digits exponent.
Proof. intros H. unfold parseFloat. by rewrite (readFloat_sound _ _ _ _ H). Qed.

Lemma parseFloat_InfinityText (s : string) (negative : bool) :
  InfinityText s negative → parseFloat s = SpecFloat.S754_infinity negative.
Proof. intros H. unfold parseFloat. by rewrite (readFloat_Infinity _ _ H). Qed.

Lemma parseFloat_NaN (s : string) :
  parseFloat s = NaN ↔
  (∀ negative, ¬ InfinityText s negative)
  ∧ (∀ negative digits exponent, ¬ DecimalText s negative digits exponent).
Proof.
  unfold parseFloat. rewrite toNumber_NaN. split.
  - intros H. split.
    + intros negative Ht. by rewrite (readFloat_Infinity _ _ Ht) in H.
    + intros negative digits exponent Ht. by rewrite (readFloat_sound _ _ _ _ Ht) in H.
  - intros [Hi Hd]. destruct (readFloat s) as [|neg|neg m e] eqn:Hread; [done| |].
    + by apply readFloat_Infinity_text, Hi in Hread.
    + by apply readFloat_complete, Hd in Hread.
Qed.

End CoercionFacts.

(** ** The claims *)

Import JS JSFacts Config ConfigSpec ConfigFacts CoercionFacts.

(** *** Round trip *)

(** Claim C1, as stated, fails.  The text [[s]], [A = 1], [b::c = 2],
    [[t:]], [d = 3] parses; the last (and only) values written are [1] for
    key [A] of section [s], [2] for key [b::c] of section [s] and [3] for
    key [d] of section [t:]; yet [get("s::A")], [get("s::b::c")] and
    [get("t:::d")] all return the empty string: [get] lower-cases the
    qualified key and cuts it at every [::]. *)
Lemma roundtrip_counterexample :
  ∃ c, newConfigFromText ("[s]" +:+ LF +:+ "A = 1" +:+ LF +:+ "b::c = 2"
                          +:+ LF +:+ "[t:]" +:+ LF +:+ "d = 3") = Ok c
    ∧ lastWritten (written c) "s" "A" = Some "1" ∧ get c "s::A" = ""
    ∧ lastWritten (written c) "s" "b::c" = Some "2" ∧ get c "s::b::c" = ""
    ∧ lastWritten (written c) "t:" "d" = Some "3" ∧ get c "t:::d" = "".
Proof. eexists. split; [by vm_compute|]. by vm_compute. Qed.

(** Claim C1, amended.  For every text that [newConfigFromText] parses, and
    every section and key that were written, if both are unchanged by
    lower-casing, neither holds [::] and the section does not end in a
    colon, then [get("section::key")] returns the last value written for
    that key in that section. *)
Theorem roundtrip_last_written (text : string) (c : Config) (sec key v : string) :
  newConfigFromText text = Ok c →
  lastWritten (written c) sec key = Some v →
  toLowerCase sec = sec → toLowerCase key = key →
  includes sec "::" = false → endsWith sec ":" = false →
  includes key "::" = false →
  get c (sec +:+ "::" +:+ key) = v.
Proof.
  intros Hparse Hlast Hs Hk Hi He Hik.
  rewrite get_stored, addressOf_qualified by done. cbn [fst snd].
  by rewrite (newConfigFromText_consistent _ _ Hparse), Hlast.
Qed.

Lemma roundtrip_last_written_witness :
  ∃ c, newConfigFromText ("[s]" +:+ LF +:+ "a = 1" +:+ LF +:+ "a = 2") = Ok c
    ∧ get c "s::a" = "2".
Proof.
  eexists. split; [by vm_compute|].
  apply (roundtrip_last_written
           ("[s]" +:+ LF +:+ "a = 1" +:+ LF +:+ "a = 2") _ "s" "a" "2");
    by vm_compute.
Defined.

(** *** Continuation *)

(** Claim C3, as stated, fails: the two lines [a = 1 \] and [+ 2] are one
    entry with key [a], but its value is not [1 + 2]. *)
Lemma continuation_counterexample :
  ∃ c, newConfigFromText ("a = 1 \" +:+ LF +:+ "+ 2") = Ok c
    ∧ get c "a" ≠ "1 + 2"
    ∧ ¬ (∃ sec, written c = [(sec, "a", "1 + 2")]).
Proof.
  eexists. split; [by vm_compute|]. split; [by vm_compute|].
  intros [sec H]. by vm_compute in H.
Qed.

(** Claim C3, amended.  The two lines [a = 1 \] and [+ 2] are a single
    entry with key [a] and value [1+ 2]: the backslash is dropped, what is
    left of the line is trimmed, which removes the space before the
    backslash, and the next line is appended with no separator. *)
Theorem continuation_joins_without_separator :
  ∃ c, newConfigFromText ("a = 1 \" +:+ LF +:+ "+ 2") = Ok c
    ∧ written c = [("default", "a", "1+ 2")]
    ∧ get c "a" = "1+ 2".
Proof. eexists. split; [by vm_compute|]. by vm_compute. Qed.

(** *** Lookup *)

(** Claim C6.  [get] is a total function of the store and the key: it
    returns the value stored under the addressed section and key, else the
    empty string.  A key without [::] addresses section [default] (and the
    lower-cased key); when the addressed section is absent, or the key is
    absent from it, the result is the empty string. *)
Theorem get_total_lookup (c : Config) (key : string) :
  get c key = default "" (stored c (addressOf key).1 (addressOf key).2)
  ∧ (includes key "::" = false →
     addressOf key = ("default", toLowerCase key)
     ∧ get c key = default "" (stored c "default" (toLowerCase key)))
  ∧ (data c !! (addressOf key).1 = None → get c key = "")
  ∧ (∀ item, data c !! (addressOf key).1 = Some item →
             item !! (addressOf key).2 = None → get c key = "").
Proof.
  split; [apply get_stored|]. split; [|split].
  - intros H. rewrite get_stored, addressOf_unqualified by done. done.
  - intros H. rewrite get_stored. unfold stored. by rewrite H.
  - intros item H1 H2. rewrite get_stored. unfold stored. rewrite H1. cbn.
    by rewrite H2.
Qed.

Lemma get_total_lookup_witness :
  get construct "missing" = ""
  ∧ get (addConfig construct "" "k" "v").1 "K" = "v"
  ∧ get (addConfig construct "s" "k" "v").1 "s::other" = "".
Proof.
  split; [|split].
  - destruct (get_total_lookup construct "missing") as (_ & _ & H & _).
    apply H. by vm_compute.
  - destruct (get_total_lookup (addConfig construct "" "k" "v").1 "K")
      as (_ & H & _).
    destruct (H eq_refl) as [_ ->]. by vm_compute.
  - destruct (get_total_lookup (addConfig construct "s" "k" "v").1 "s::other")
      as (_ & _ & _ & H).
    apply (H {["k" := "v"]}); by vm_compute.
Defined.

(** *** [getStrings] *)

(** Claim C10.  [getStrings] never returns the empty array; when the lookup
    is absent, or the stored value is the empty string, it returns the
    one-element array holding the empty string. *)
Theorem getStrings_never_empty (c : Config) (key : string) :
  getStrings c key ≠ []
  ∧ (stored c (addressOf key).1 (addressOf key).2 = None →
     getStrings c key = [""])
  ∧ (stored c (addressOf key).1 (addressOf key).2 = Some "" →
     getStrings c key = [""]).
Proof.
  split; [apply splitFrom_not_nil|].
  split; intros H; unfold getStrings; by rewrite get_stored, H.
Qed.

Lemma getStrings_never_empty_witness :
  getStrings construct "missing" = [""]
  ∧ getStrings (addConfig construct "s" "k" "").1 "s::k" = [""].
Proof.
  split.
  - destruct (getStrings_never_empty construct "missing") as (_ & H & _).
    apply H. by vm_compute.
  - destruct (getStrings_never_empty (addConfig construct "s" "k" "").1 "s::k")
      as (_ & _ & H).
    apply H. by vm_compute.
Defined.

(** *** Coercions *)

(** Claim C7, as stated, fails: malformed numeric text does not always give
    NaN.  The value [12abc] is read by [getInt] as the double 12
    ([6755399441055744 * 2^-49]) and the value [3.5x] by [getFloat] as the
    double 3.5 ([7881299347898368 * 2^-51]): the numeric getters read the
    longest numeric prefix and ignore what follows it. *)
Theorem malformed_number_counterexample :
  ∃ c, newConfigFromText ("n = 12abc" +:+ LF +:+ "x = 3.5x") = Ok c
    ∧ get c "n" = "12abc"
    ∧ getInt c "n" = SpecFloat.S754_finite false 6755399441055744 (-49)
    ∧ getInt c "n" ≠ NaN
    ∧ get c "x" = "3.5x"
    ∧ getFloat c "x" = SpecFloat.S754_finite false 7881299347898368 (-51)
    ∧ getFloat c "x" ≠ NaN.
Proof. eexists. split; [by vm_compute|]. by vm_compute. Qed.

(** Claim C7, amended.  For every store and key:
    - [getBool] is true exactly when [get]'s result is not the empty
      string, that is when a non-empty string is stored under the
      addressed key;
    - [getStrings] is [get]'s result cut at its commas, and the only such
      list;
    - [getInt] skips leading white space and an optional sign, reads the
      longest run of decimal digits and returns the double nearest to its
      value, whatever follows the digits; it returns NaN exactly when the
      text begins no decimal integer;
    - [getFloat] does the same with the longest decimal literal (digits,
      an optional fraction, an optional exponent part) and with the word
      [Infinity]; it returns NaN exactly when the text begins neither.
    The numeric getters are functions to numbers: no call raises. *)
Theorem getter_coercions (c : Config) (key : string) :
  (getBool c key = true ↔ get c key ≠ "")
  ∧ (getBool c key = true ↔
     ∃ v, stored c (addressOf key).1 (addressOf key).2 = Some v ∧ v ≠ "")
  ∧ CutAtCommas (get c key) (getStrings c key)
  ∧ (∀ l, CutAtCommas (get c key) l → getStrings c key = l)
  ∧ (∀ negative value,
       IntegerText (get c key) negative value →
       getInt c key = roundDecimal negative value 0)
  ∧ (getInt c key = NaN ↔
     ∀ negative value, ¬ IntegerText (get c key) negative value)
  ∧ (∀ negative digits exponent,
       DecimalText (get c key) negative digits exponent →
       getFloat c key = roundDecimal negative digits exponent)
  ∧ (∀ negative,
       InfinityText (get c key) negative →
       getFloat c key = SpecFloat.S754_infinity negative)
  ∧ (getFloat c key = NaN ↔
     (∀ negative, ¬ InfinityText (get c key) negative)
     ∧ (∀ negative digits exponent,
          ¬ DecimalText (get c key) negative digits exponent)).
Proof.
  assert (getBool c key = true ↔ get c key ≠ "") as Hbool.
  { unfold getBool. rewrite truthy_true. done. }
  split; [done|]. split.
  { rewrite Hbool, get_stored. destruct (stored _ _ _) as [v|].
    - split; [by exists v|by intros (? & [= <-] & ?)].
    - split; [done|by intros (? & ? & ?)]. }
  split; [apply split_cut|]. split; [apply cut_unique|].
  split; [apply parseInt10_IntegerText|]. split; [apply parseInt10_NaN|].
  split; [apply parseFloat_DecimalText|]. split; [apply parseFloat_InfinityText|].
  apply parseFloat_NaN.
Qed.

Lemma getter_coercions_witness :
  ∃ c, newConfigFromText
         ("n =  -12abc" +:+ LF +:+ "x = 2.5e-3 per unit" +:+ LF +:+ "l = a,,b c")
       = Ok c
    ∧ getBool c "n" = true ∧ getBool c "missing" = false
    ∧ getStrings c "l" = ["a"; ""; "b c"]
    ∧ getInt c "n" = SpecFloat.S754_finite true 6755399441055744 (-49)
    ∧ getInt c "l" = NaN
    ∧ getFloat c "x" = SpecFloat.S754_finite false 5764607523034235 (-61)
    ∧ getFloat c "l" = NaN.
Proof.
  eexists. split; [by vm_compute|].
  set (c := mkConfig _ _).
  split.
  { destruct (getter_coercions c "n") as (H & _). apply H. by vm_compute. }
  split.
  { destruct (getter_coercions c "missing") as (H & _).
    destruct (getBool c "missing"); [|done]. by destruct (proj1 H eq_refl). }
  split.
  { destruct (getter_coercions c "l") as (_ & _ & _ & H & _). apply H.
    split; [done|]. split; [|by vm_compute].
    repeat constructor; unfold commaFree; cbn;
      rewrite ?not_elem_of_cons; repeat split; try done; apply not_elem_of_nil. }
  split.
  { destruct (getter_coercions c "n") as (_ & _ & _ & _ & H & _).
    etrans; [apply (H true 12%N)|by vm_compute].
    exists "", MinusSign, (Decimal.D1 (Decimal.D2 Decimal.Nil)), "abc".
    by vm_compute. }
  split.
  { destruct (getter_coercions c "l") as (_ & _ & _ & _ & _ & H & _). apply H.
    intros negative value Ht. apply readInt10_sound in Ht. by vm_compute in Ht. }
  split.
  { destruct (getter_coercions c "x") as (_ & _ & _ & _ & _ & _ & H & _).
    etrans; [apply (H false 25%N (-4))|by vm_compute].
    exists "", NoSign, (Decimal.D2 Decimal.Nil), true, (Decimal.D5 Decimal.Nil),
      (ExponentOf false MinusSign (Decimal.D3 Decimal.Nil)), " per unit".
    split; [by vm_compute|]. split; [done|]. split; [by left|].
    split; [done|]. split; [done|]. split; [done|]. split; [done|].
    split; [done|]. by vm_compute. }
  destruct (getter_coercions c "l") as (_ & _ & _ & _ & _ & _ & _ & _ & H). apply H.
  split.
  - intros negative Ht. apply readFloat_Infinity in Ht. by vm_compute in Ht.
  - intros negative digits exponent Ht. apply readFloat_sound in Ht.
    by vm_compute in Ht.
Defined.


(** *** Matcher validation *)



(** *** Duplicate sections *)

(** Claim C4, as stated, fails.  In the text [[p]], [x], [[p]] the section
    [p] has two headers, but parsing fails on line 2, which has no [=],
    before the second header is reached: the error is not the duplicate
    section error. *)
Lemma duplicate_section_counterexample :
  isHeader "[p]" = true ∧ headerName "[p]" = "p"
  ∧ split ("[p]" +:+ LF +:+ "x" +:+ LF +:+ "[p]") LF = ["[p]"; "x"; "[p]"]
  ∧ newConfigFromText ("[p]" +:+ LF +:+ "x" +:+ LF +:+ "[p]")
    = Throw "parse the content error : line 2"
  ∧ newConfigFromText ("[p]" +:+ LF +:+ "x" +:+ LF +:+ "[p]")
    ≠ Throw "Duplicated section: p at line 3".
Proof. by vm_compute. Qed.

(** Claim C4, amended.  For every text in which two section-header lines
    open the same section name, parsing fails.  When no error is raised
    before the duplicate is detected (the lines before the second header are
    processed without error, and so is the flush of a pending line at that
    header) and no line before the second header is empty, the error is
    [Duplicated section: <name> at line <n>] with the name of the section
    and the 1-based line number of the second header in the text. *)
Theorem duplicate_section_rejected
    (text : string) (before mid after : list string) (h1 h2 : string) :
  split text LF = before ++ h1 :: mid ++ h2 :: after →
  isHeader h1 = true → isHeader h2 = true → headerName h1 = headerName h2 →
  (∃ msg, newConfigFromText text = Throw msg)
  ∧ (∀ st,
       Forall (fun l => l ≠ "") (before ++ h1 :: mid) →
       forEach (List.length (linesOf text)) (before ++ h1 :: mid) 0
               (initial construct) = Ok st →
       currentLine st = ""
       ∨ succeeds (write (this st) (section st)
                         (List.length (before ++ h1 :: mid)) (currentLine st)) →
       newConfigFromText text =
       Throw ("Duplicated section: " +:+ headerName h2 +:+ " at line "
              +:+ ofNat (List.length (before ++ h1 :: mid) + 1))).
Proof.
  intros Hsplit Hh1 Hh2 Hname.
  assert (linesOf text =
          List.filter truthy (before ++ h1 :: mid)
          ++ h2 :: List.filter truthy after) as Hlines.
  { unfold linesOf. rewrite Hsplit.
    rewrite (app_assoc before (h1 :: mid) (h2 :: after)) at 1.
    change ((before ++ h1 :: mid) ++ h2 :: after)
      with ((before ++ h1 :: mid) ++ [h2] ++ after).
    rewrite !List.filter_app. cbn [List.filter].
    by rewrite (isHeader_not_empty _ Hh2). }
  assert (h1 ∈ List.filter truthy (before ++ h1 :: mid)) as Hin.
  { apply list_elem_of_In, filter_In. split.
    - apply list_elem_of_In, elem_of_app. right. apply elem_of_cons. by left.
    - by apply isHeader_not_empty. }
  unfold newConfigFromText, parseBuffer, runBuffer.
  set (n := List.length (linesOf text)). rewrite Hlines, forEach_app.
  fold (initial construct).
  destruct (forEach n (List.filter truthy (before ++ h1 :: mid)) 0
                    (initial construct)) as [st|m] eqn:Hpre.
  - apply forEach_seen in Hpre as Hseen. destruct Hseen as [_ Hseen].
    specialize (Hseen h1 Hin Hh1). rewrite Hname in Hseen.
    destruct (callback_duplicate n st h2
                (0 + List.length (List.filter truthy (before ++ h1 :: mid)))
                Hh2 Hseen) as (msg & Hcb & Hmsg).
    cbn [mbind result_bind forEach]. rewrite Hcb. cbn.
    split; [eauto|].
    intros st' Hne Hrun Hflush. rewrite (filter_truthy_id _ Hne) in *.
    rewrite Hrun in Hpre. injection Hpre as ->.
    by rewrite Hmsg.
  - cbn. split; [eauto|].
    intros st' Hne Hrun _. rewrite (filter_truthy_id _ Hne) in Hpre. congruence.
Qed.

Lemma duplicate_section_rejected_witness :
  newConfigFromText ("[p]" +:+ LF +:+ "a = 1" +:+ LF +:+ "[p]" +:+ LF +:+ "b = 2")
  = Throw "Duplicated section: p at line 3".
Proof.
  destruct (duplicate_section_rejected
              ("[p]" +:+ LF +:+ "a = 1" +:+ LF +:+ "[p]" +:+ LF +:+ "b = 2")
              [] ["a = 1"] ["b = 2"] "[p]" "[p]"
              eq_refl eq_refl eq_refl eq_refl) as [_ H].
  apply (H (mkLocals (addConfig construct "p" "a" "1").1 "p" "" {["p"]})).
  - by repeat constructor.
  - by vm_compute.
  - by left.
Defined.

(** *** Flush at a section header *)

(** Claim C8 at a text with an empty line.  In the text
    [[r]], [a = 1], an empty line, [x \], [[s]] the header [[s]] is the
    fifth line and the pending continuation [x] sits on the fourth, the line
    just before the header.  The pending line is flushed when the header is
    reached, before the section [s] is opened, and the flush fails for want
    of an [=]; the error cites line 3, not line 4.  The callback numbers the
    lines that are left once the empty ones are filtered out, so the header
    is its line 4 and the flush goes under 4 - 1.  Without the empty line
    the header is the fourth line of the text and the same flush cites
    line 3, the line just before it.  When the pending line has an [=], the
    flush stores it in the section that was active, not in the one that
    the header opens. *)
Theorem flush_line_number_after_empty_line :
  split ("[r]" +:+ LF +:+ "a = 1" +:+ LF +:+ LF +:+ "x \" +:+ LF +:+ "[s]") LF
  = ["[r]"; "a = 1"; ""; "x \"; "[s]"]
  ∧ linesOf ("[r]" +:+ LF +:+ "a = 1" +:+ LF +:+ LF +:+ "x \" +:+ LF +:+ "[s]")
    = ["[r]"; "a = 1"; "x \"; "[s]"]
  ∧ newConfigFromText
      ("[r]" +:+ LF +:+ "a = 1" +:+ LF +:+ LF +:+ "x \" +:+ LF +:+ "[s]")
    = Throw "parse the content error : line 3"
  ∧ newConfigFromText ("[r]" +:+ LF +:+ "a = 1" +:+ LF +:+ "x \" +:+ LF +:+ "[s]")
    = Throw "parse the content error : line 3"
  ∧ (∃ c, newConfigFromText
            ("[r]" +:+ LF +:+ "a = 1" +:+ LF +:+ LF +:+ "x = 2 \" +:+ LF +:+ "[s]")
          = Ok c
        ∧ get c "r::x" = "2" ∧ get c "s::x" = "").
Proof.
  split; [by vm_compute|]. split; [by vm_compute|]. split; [by vm_compute|].
  split; [by vm_compute|]. eexists. split; [by vm_compute|]. by vm_compute.
Qed.

(** *** Line numbers of errors *)

(** Claim C5 at a text with an empty line.  The logical line [b] has no
    [=]; it is the third line of the text, after an empty second line, and
    the error cites line 2: the callback numbers the lines that are left
    once the empty ones are filtered out. *)
Theorem missing_equal_after_empty_line :
  split ("a = 1" +:+ LF +:+ LF +:+ "b") LF = ["a = 1"; ""; "b"]
  ∧ linesOf ("a = 1" +:+ LF +:+ LF +:+ "b") = ["a = 1"; "b"]
  ∧ newConfigFromText ("a = 1" +:+ LF +:+ LF +:+ "b")
    = Throw "parse the content error : line 2".
Proof. by vm_compute. Qed.

(** *** The pending line at the end of the input *)

(** Claim C9 at a text whose continuation line is followed by a comment
    line.  The loop ends with the logical line [a = 1] still pending: it was
    never written, no error is raised, and [get("a")] is the empty string.
    The callback returns on the blank remainder of the last line before the
    test that forces the flush there. *)
Theorem pending_line_lost_before_trailing_comment :
  ∃ st, runBuffer construct ("a = 1 \" +:+ LF +:+ "# end") = Ok st
    ∧ currentLine st = "a = 1"
    ∧ written (this st) = []
    ∧ get (this st) "a" = "".
Proof. eexists. split; [by vm_compute|]. by vm_compute. Qed.

(** ** Further properties of the code *)

Module MoreFacts.

(** *** [set] and [get] *)

Lemma addConfig_default (c : Config) (option value : string) :
  addConfig c "" option value = addConfig c DEFAULT_SECTION option value.
Proof. reflexivity. Qed.

(** Where [set] inserts: the section that [get] addresses for the same key,
    with [default] standing in for the empty section name. *)
Lemma set_Ok (c : Config) (key value : string) :
  key ≠ "" →
  set c key value =
  Ok (addConfig c (addressOf key).1 (addressOf key).2 value).1.
Proof.
  intros Hkey. unfold set, addressOf.
  apply truthy_true in Hkey as ->. cbn [negb].
  by destruct (2 <=? List.length (split (toLowerCase key) "::"))%nat.
Qed.

Lemma splitFrom_head (sep s cur : string) :
  ∃ t rest, splitFrom sep s 0 cur = (cur +:+ t) :: rest.
Proof.
  revert cur. induction s as [|c s IH]; intros cur; cbn [splitFrom].
  - exists "", []. by rewrite append_nil_r.
  - destruct (String.prefix sep (String c s)).
    + eexists "", _. by rewrite append_nil_r.
    + destruct (IH (cur +:+ String c "")) as (t & rest & ->).
      exists (String c t), rest. by rewrite append_assoc.
Qed.

(** A key that does not begin with [::] never addresses the empty section
    name. *)
Lemma addressOf_section_not_empty (key : string) :
  startsWith key "::" = false → (addressOf key).1 ≠ "".
Proof.
  intros Hstart. unfold addressOf.
  unfold startsWith in Hstart. rewrite <- prefix_colons_lower in Hstart.
  unfold split. destruct (toLowerCase key) as [|a s]; [done|].
  destruct (2 <=? _)%nat; [|by unfold DEFAULT_SECTION]. cbn [fst].
  cbn [splitFrom]. rewrite Hstart.
  destruct (splitFrom_head "::" s ("" +:+ String a "")) as (t & rest & ->).
  by rewrite append_nil_l, append_cons.
Qed.

Lemma addressOf_leading_colons (k : string) :
  includes k "::" = false → addressOf ("::" +:+ k) = ("", toLowerCase k).
Proof.
  intros Hk. unfold addressOf. rewrite toLowerCase_append.
  change (toLowerCase "::") with ("" +:+ "::").
  rewrite append_assoc, split_qualified; try done.
  by rewrite includes_colons_lower.
Qed.

Lemma addConfig_no_empty_section (c : Config) (section option value : string) :
  data c !! "" = None → data (addConfig c section option value).1 !! "" = None.
Proof.
  intros Hc. unfold addConfig.
  set (s := if String.eqb section "" then DEFAULT_SECTION else section).
  assert (s ≠ "") as Hs.
  { subst s. by destruct (String.eqb_spec section ""). }
  destruct (data c !! s) as [item|] eqn:Hitem.
  - rewrite bool_decide_true by eauto. cbn [negb]. rewrite Hitem. cbn [fst data].
    by rewrite lookup_insert_ne.
  - rewrite bool_decide_false by (intros [? ?]; congruence). cbn [negb].
    rewrite lookup_insert_eq. cbn [fst data]. by rewrite !lookup_insert_ne.
Qed.

Lemma addressOf_leading_colons_section (k : string) :
  (addressOf ("::" +:+ k)).1 = "".
Proof.
  unfold addressOf. rewrite toLowerCase_append.
  change (toLowerCase "::" +:+ toLowerCase k)
    with (String ":" (String ":" (toLowerCase k))).
  unfold split. cbn [splitFrom String.prefix String.length Nat.sub].
  destruct (ascii_dec ":" ":"); [|done]. rewrite prefix_nil.
  pose proof (splitFrom_not_nil "::" (toLowerCase k) 0 "") as Hne.
  by destruct (splitFrom "::" (toLowerCase k) 0 "").
Qed.

(** *** What the parser keeps true of the object *)

Section Preservation.
Variable P : Config → Prop.
Hypothesis write_keeps :
  ∀ c sec n line c', P c → write c sec n line = Ok c' → P c'.

Lemma openSection_keeps (st st' : Locals) (line : string) (lineNumber : nat) :
  openSection st line lineNumber = Ok st' → P (this st) → P (this st').
Proof.
  unfold openSection. intros (st1 & H1 & H2)%bind_Ok Hc.
  assert (P (this st1)) as Hc1.
  { destruct (negb _).
    - apply bind_Ok in H1 as (c1 & Hw & [= <-]). by eapply write_keeps.
    - by injection H1 as <-. }
  case_bool_decide; [done|]. by injection H2 as <-.
Qed.

Lemma addLine_keeps (n : nat) (st st' : Locals) (line : string) (lineNumber : nat) :
  addLine n st line lineNumber = Ok st' → P (this st) → P (this st').
Proof.
  unfold addLine. destruct (endsWith line _); cbn [orb].
  - destruct (lineNumber =? n)%nat.
    + intros (c1 & Hw & [= <-])%bind_Ok Hc. by eapply write_keeps.
    + by intros [= <-].
  - intros (c1 & Hw & [= <-])%bind_Ok Hc. by eapply write_keeps.
Qed.

Lemma forEach_keeps (n : nat) (lines : list string) (index : nat) (st st' : Locals) :
  forEach n lines index st = Ok st' → P (this st) → P (this st').
Proof.
  revert index st. induction lines as [|l lines IH]; intros index st; cbn [forEach].
  - by intros [= <-].
  - intros (st1 & H1 & H2)%bind_Ok Hc. eapply IH; [done|].
    revert H1. unfold callback. destruct (negb _); [by intros [= <-]|].
    destruct (_ && _); intros H1;
      [by eapply openSection_keeps|by eapply addLine_keeps].
Qed.

Lemma newConfigFromText_keeps (text : string) (c : Config) :
  newConfigFromText text = Ok c → P construct → P c.
Proof.
  unfold newConfigFromText, parseBuffer, runBuffer.
  intros (st & Hrun & [= <-])%bind_Ok Hc.
  by apply (forEach_keeps _ _ _ _ _ Hrun).
Qed.

End Preservation.

(** *** More on the string primitives *)

Lemma indexOf_lower_bound (s p : string) : -1 ≤ indexOf s p.
Proof.
  induction s as [|c s IH]; cbn [indexOf].
  - destruct (String.prefix p ""); lia.
  - destruct (String.prefix p (String c s)); [lia|].
    destruct (Z.eqb_spec (indexOf s p) (-1)); lia.
Qed.

Lemma indexOf_absent (s p : string) : includes s p = false → indexOf s p = -1.
Proof.
  induction s as [|c s IH]; cbn [indexOf includes]; intros H.
  - apply orb_false_iff in H as [-> _]. done.
  - apply orb_false_iff in H as [-> H]. by rewrite IH.
Qed.

Lemma slice_cons (c : ascii) (s : string) (i : Z) :
  0 ≤ i → slice (String c s) 0 (i + 1) = String c (slice s 0 i).
Proof.
  intros Hi. unfold slice, length. cbn [String.length].
  destruct (Z.ltb_spec 0 0); [lia|].
  destruct (Z.ltb_spec (i + 1) 0); [lia|]. destruct (Z.ltb_spec i 0); [lia|].
  replace (Z.to_nat (Z.min 0 (Z.of_nat (S (String.length s))))) with 0%nat by lia.
  replace (Z.to_nat (Z.min 0 (Z.of_nat (String.length s)))) with 0%nat by lia.
  replace (Z.to_nat (Z.max (Z.min (i + 1) (Z.of_nat (S (String.length s)))
                            - Z.min 0 (Z.of_nat (S (String.length s)))) 0))
    with (S (Z.to_nat (Z.max (Z.min i (Z.of_nat (String.length s))
                               - Z.min 0 (Z.of_nat (String.length s))) 0)))
    by lia.
  reflexivity.
Qed.

Lemma slice_nothing (s : string) : slice s 0 0 = "".
Proof.
  unfold slice. destruct (Z.ltb_spec 0 0); [lia|].
  replace (Z.to_nat (Z.min 0 (length s))) with 0%nat by (unfold length; lia).
  replace (Z.to_nat (Z.max (Z.min 0 (length s) - Z.min 0 (length s)) 0))
    with 0%nat by lia.
  by destruct s.
Qed.

Section Marker.
Variable ch : ascii.
Local Abbreviation marker := (String ch "").

Lemma prefix_marker_cons (c : ascii) (s : string) :
  String.prefix marker (String c s) = bool_decide (ch = c).
Proof.
  cbn [String.prefix]. rewrite prefix_nil.
  destruct (ascii_dec ch c);
    [by rewrite bool_decide_true|by rewrite bool_decide_false].
Qed.

Lemma stripComment_cons (c : ascii) (s : string) :
  ch ≠ c → stripComment (String c s) marker = String c (stripComment s marker).
Proof.
  intros Hne. unfold stripComment. cbn [indexOf].
  rewrite prefix_marker_cons, bool_decide_false by done.
  pose proof (indexOf_lower_bound s marker) as Hlb.
  destruct (Z.eqb_spec (indexOf s marker) (-1)) as [->|Hi].
  - done.
  - destruct (Z.ltb_spec (-1) (indexOf s marker + 1)); [|lia].
    destruct (Z.ltb_spec (-1) (indexOf s marker)); [|lia].
    apply slice_cons. lia.
Qed.

Lemma stripComment_at_marker (s : string) : stripComment (marker +:+ s) marker = "".
Proof.
  unfold stripComment. change (marker +:+ s) with (String ch s).
  cbn [indexOf]. rewrite prefix_marker_cons, bool_decide_true by done.
  apply slice_nothing.
Qed.

Lemma stripComment_absent (s : string) :
  includes s marker = false → stripComment s marker = s.
Proof. intros H. unfold stripComment. by rewrite indexOf_absent. Qed.

(** Before the first marker nothing is cut. *)
Lemma stripComment_app (a t : string) :
  includes a marker = false →
  stripComment (a +:+ t) marker = a +:+ stripComment t marker.
Proof.
  induction a as [|c a IH]; [done|]. cbn [includes].
  intros [Hpre Ha]%orb_false_iff. rewrite !append_cons.
  rewrite prefix_marker_cons in Hpre. apply bool_decide_eq_false in Hpre.
  by rewrite stripComment_cons, IH.
Qed.

(** What follows a text that holds the marker does not matter. *)
Lemma stripComment_app_cut (a t : string) :
  includes a marker = true →
  stripComment (a +:+ t) marker = stripComment a marker.
Proof.
  induction a as [|c a IH]; [done|]. cbn [includes]. rewrite append_cons.
  destruct (decide (ch = c)) as [<-|Hne].
  - intros _. change (String ch (a +:+ t)) with (marker +:+ (a +:+ t)).
    change (String ch a) with (marker +:+ a).
    by rewrite !stripComment_at_marker.
  - rewrite prefix_marker_cons, bool_decide_false by done. cbn [orb].
    intros Ha. by rewrite !stripComment_cons, IH.
Qed.

Lemma stripComment_marked (a b : string) :
  includes a marker = false → stripComment (a +:+ marker +:+ b) marker = a.
Proof.
  intros Ha. rewrite stripComment_app, stripComment_at_marker by done.
  apply append_nil_r.
Qed.

End Marker.

(** *** Trimming *)

Lemma trimStart_idem (s : string) : trimStart (trimStart s) = trimStart s.
Proof.
  induction s as [|c s IH]; [done|]. cbn [trimStart].
  destruct (isWhiteSpace c) eqn:Hc; [done|]. cbn [trimStart]. by rewrite Hc.
Qed.

Lemma trimEnd_idem (s : string) : trimEnd (trimEnd s) = trimEnd s.
Proof.
  induction s as [|c s IH]; [done|]. cbn [trimEnd].
  destruct (trimEnd s) as [|d t] eqn:Ht.
  - destruct (isWhiteSpace c) eqn:Hc; [done|]. cbn [trimEnd]. by rewrite Hc.
  - cbn [trimEnd] in IH |- *. by rewrite IH.
Qed.

Lemma trimStart_trimEnd (s : string) : trimStart (trimEnd s) = trimEnd (trimStart s).
Proof.
  induction s as [|c s IH]; [done|]. cbn [trimStart trimEnd].
  destruct (isWhiteSpace c) eqn:Hc.
  - rewrite <- IH. destruct (trimEnd s) as [|d t]; [done|].
    cbn [trimStart]. by rewrite Hc.
  - cbn [trimEnd]. destruct (trimEnd s) as [|d t]; cbn [trimStart]; by rewrite Hc.
Qed.

Lemma trim_idem (s : string) : trim (trim s) = trim s.
Proof.
  unfold trim. rewrite trimStart_trimEnd, trimStart_idem.
  by rewrite trimEnd_idem.
Qed.

Lemma trim_trimStart (s : string) : trim (trimStart s) = trim s.
Proof. unfold trim. by rewrite trimStart_idem. Qed.

Lemma trim_trimEnd (s : string) : trim (trimEnd s) = trim s.
Proof. unfold trim. by rewrite trimStart_trimEnd, trimEnd_idem. Qed.

Lemma callback_cleaned (n : nat) (st : Locals) (l l' : string) (index : nat) :
  cleaned l = cleaned l' → callback n st l index = callback n st l' index.
Proof. intros H. unfold callback. fold (cleaned l) (cleaned l'). by rewrite H. Qed.

Lemma cleaned_hash (a b : string) :
  includes a "#" = false → cleaned (a +:+ "#" +:+ b) = cleaned a.
Proof.
  intros Ha. unfold cleaned, DEFAULT_COMMENT.
  by rewrite stripComment_marked, stripComment_absent.
Qed.

Lemma cleaned_semicolon (a b : string) :
  includes a ";" = false → cleaned (a +:+ ";" +:+ b) = cleaned a.
Proof.
  intros Ha. unfold cleaned, DEFAULT_COMMENT, DEFAULT_COMMENT_SEM.
  destruct (includes a "#") eqn:Hhash.
  - by rewrite stripComment_app_cut.
  - rewrite stripComment_app by done.
    change (";" +:+ b) with (String ";" b).
    rewrite stripComment_cons by done.
    change (String ";" (stripComment b "#")) with (";" +:+ stripComment b "#").
    rewrite stripComment_marked by done.
    by rewrite (stripComment_absent "#"), (stripComment_absent ";").
Qed.

Lemma forEach_blank (n : nat) (lines : list string) (index : nat) (st : Locals) :
  Forall (fun l => cleaned l = "") lines → forEach n lines index st = Ok st.
Proof.
  intros H. revert index. induction H as [|l lines Hl _ IH]; intros index; [done|].
  cbn [forEach]. rewrite callback_blank by done. apply IH.
Qed.

Lemma trimStart_entry (k t : string) :
  trimStart (k +:+ "=" +:+ t) = trimStart k +:+ "=" +:+ t.
Proof.
  induction k as [|c k IH]; [done|]. rewrite append_cons. cbn [trimStart].
  destruct (isWhiteSpace c); [done|]. by rewrite append_cons.
Qed.

Lemma trimEnd_entry (k v : string) :
  trimEnd (k +:+ "=" +:+ v) = k +:+ "=" +:+ trimEnd v.
Proof.
  induction k as [|c k IH].
  - rewrite !append_nil_l. change ("=" +:+ v) with (String "=" v).
    cbn [trimEnd]. by destruct (trimEnd v).
  - rewrite !(append_cons c k). cbn [trimEnd]. rewrite IH.
    by destruct k.
Qed.

Lemma trim_entry (k v : string) :
  trim (k +:+ "=" +:+ v) = trimStart k +:+ "=" +:+ trimEnd v.
Proof. unfold trim. by rewrite trimStart_entry, trimEnd_entry. Qed.

Lemma includes_trimStart (s p : string) :
  includes s p = false → includes (trimStart s) p = false.
Proof.
  induction s as [|c s IH]; [done|]. cbn [trimStart].
  destruct (isWhiteSpace c); [|done]. cbn [includes].
  intros [_ H]%orb_false_iff. by apply IH.
Qed.

Lemma prefix_app_false (p a b : string) :
  String.prefix p (a +:+ b) = false → String.prefix p a = false.
Proof.
  revert a. induction p as [|e p IHp]; intros a.
  - by rewrite !prefix_nil.
  - destruct a as [|c a]; [done|]. rewrite append_cons. cbn [String.prefix].
    destruct (ascii_dec e c); [apply IHp|done].
Qed.

Lemma includes_app_l (a b p : string) :
  p ≠ "" → includes (a +:+ b) p = false → includes a p = false.
Proof.
  intros Hp. induction a as [|c a IH].
  - intros _. by destruct p.
  - rewrite append_cons. cbn [includes].
    intros [Hpre H]%orb_false_iff. rewrite (IH H), orb_false_r.
    by apply (prefix_app_false p (String c a) b).
Qed.

(** *** The shape of what the parser stores *)

(** A line that holds [=] is a text without [=], the [=], and the rest. *)
Lemma indexOf_equal_cut (s : string) :
  indexOf s "=" ≠ -1 → ∃ a b, s = a +:+ "=" +:+ b ∧ includes a "=" = false.
Proof.
  induction s as [|c s IH]; cbn [indexOf]; [done|].
  rewrite (prefix_marker_cons "="). case_bool_decide as Hc.
  - intros _. exists "", s. by subst c.
  - destruct (Z.eqb_spec (indexOf s "=") (-1)) as [|Hi]; [done|]. intros _.
    destruct (IH Hi) as (a & b & -> & Ha). exists (String c a), b.
    split; [done|]. cbn [includes].
    by rewrite (prefix_marker_cons "="), bool_decide_false, Ha.
Qed.

Lemma trimEnd_prefix (s : string) : ∃ w, s = trimEnd s +:+ w.
Proof.
  induction s as [|c s [w IH]]; [by exists ""|]. cbn [trimEnd].
  destruct (trimEnd s) as [|d t].
  - destruct (isWhiteSpace c).
    + by exists (String c s).
    + exists s. by rewrite append_cons, append_nil_l.
  - exists w. rewrite append_cons. by rewrite <- IH.
Qed.

Lemma includes_trimEnd (s p : string) :
  p ≠ "" → includes s p = false → includes (trimEnd s) p = false.
Proof.
  intros Hp H. destruct (trimEnd_prefix s) as [w Hw]. rewrite Hw in H.
  by apply includes_app_l in H.
Qed.

Lemma includes_trim (s p : string) :
  p ≠ "" → includes s p = false → includes (trim s) p = false.
Proof. intros Hp H. by apply includes_trimEnd, includes_trimStart. Qed.

(** What [write] inserts: a trimmed key without [=] and a trimmed value. *)
Lemma write_Ok_shape (c c' : Config) (sec : string) (n : nat) (line : string) :
  write c sec n line = Ok c' →
  ∃ k v, c' = (addConfig c sec k v).1
       ∧ trim k = k ∧ includes k "=" = false ∧ trim v = v.
Proof.
  intros (k & v & -> & -> & -> & Hi)%write_Ok.
  destruct (indexOf_equal_cut line Hi) as (a & b & -> & Ha).
  destruct (cut_at_first_equal a b Ha) as (_ & Hk & Hv).
  exists (trim a), (trim b). rewrite <- Hk, <- Hv at 1.
  repeat split; [apply trim_idem|by apply includes_trim|apply trim_idem].
Qed.

Lemma addConfig_sections (c : Config) (section option value sec : string) :
  is_Some (data (addConfig c section option value).1 !! sec) →
  sec = (if String.eqb section "" then DEFAULT_SECTION else section)
  ∨ is_Some (data c !! sec).
Proof.
  unfold addConfig.
  set (s := if String.eqb section "" then DEFAULT_SECTION else section).
  destruct (decide (sec = s)) as [|Hne]; [by left|]. right. revert H.
  destruct (data c !! s) as [item|] eqn:Hitem.
  - rewrite bool_decide_true by eauto. cbn [negb]. rewrite Hitem. cbn [fst data].
    by rewrite lookup_insert_ne.
  - rewrite bool_decide_false by (intros [? ?]; congruence). cbn [negb].
    rewrite lookup_insert_eq. cbn [fst data]. by rewrite !lookup_insert_ne.
Qed.

(** The names seen are names of headers. *)
Lemma forEach_seen_only
    (n : nat) (lines : list string) (index : nat) (st st' : Locals) (x : string) :
  forEach n lines index st = Ok st' → x ∈ seenSections st' →
  x ∈ seenSections st
  ∨ ∃ l, l ∈ lines ∧ isHeader l = true ∧ headerName l = x.
Proof.
  revert index st. induction lines as [|l lines IH]; intros index st; cbn [forEach].
  - intros [= <-] Hx. by left.
  - intros (st1 & H1 & H2)%bind_Ok Hx.
    destruct (IH _ _ H2 Hx) as [Hx1|(l' & Hin & Hh & Hn)].
    + destruct (isHeader l) eqn:Hl.
      * rewrite callback_header in H1 by done. unfold openSection in H1.
        apply bind_Ok in H1 as (st2 & Hflush & Hopen).
        assert (seenSections st2 = seenSections st) as Hseen.
        { destruct (negb _).
          - by apply bind_Ok in Hflush as (c1 & _ & [= <-]).
          - by injection Hflush as <-. }
        fold (headerName l) in Hopen. case_bool_decide; [done|].
        injection Hopen as <-. cbn in Hx1. rewrite Hseen in Hx1.
        apply elem_of_union in Hx1 as [?|Hx1%elem_of_singleton]; [by left|].
        subst x. right. exists l. split; [apply elem_of_cons; by left|done].
      * left. revert H1. unfold callback. fold (cleaned l).
        unfold isHeader in Hl. rewrite Hl.
        destruct (negb _); [by intros [= <-]|].
        intros H1%addLine_seen. by rewrite <- H1.
    + right. exists l'. split; [apply elem_of_cons; by right|done].
Qed.


Lemma write_sectionsSeen (st : Locals) (n : nat) (line cur : string) (c' : Config) :
  write (this st) (section st) n line = Ok c' → sectionsSeen st →
  sectionsSeen (mkLocals c' (section st) cur (seenSections st)).
Proof.
  intros (k & v & -> & _)%write_Ok [Hdata Hsec]. split; [|done]. cbn.
  intros sec [->|Hold]%addConfig_sections; [|by apply Hdata].
  destruct (String.eqb_spec (section st) "") as [|Hne]; [by left|].
  right. by destruct Hsec.
Qed.

Lemma callback_sectionsSeen (n : nat) (st st' : Locals) (l : string) (index : nat) :
  callback n st l index = Ok st' → sectionsSeen st → sectionsSeen st'.
Proof.
  unfold callback. destruct (negb _); [by intros [= <-]|].
  destruct (_ && _).
  - unfold openSection. intros (st1 & Hflush & Hopen)%bind_Ok Hst.
    assert (sectionsSeen st1 ∧ seenSections st1 = seenSections st) as [[Hd Hs] Hseen].
    { destruct (negb _).
      - apply bind_Ok in Hflush as (c1 & Hw & [= <-]).
        split; [by eapply write_sectionsSeen|done].
      - by injection Hflush as <-. }
    revert Hopen. case_bool_decide; [done|]. intros [= <-]. split; cbn.
    + intros sec [->|Hin]%Hd; [by left|]. right. by apply elem_of_union_l.
    + right. by apply elem_of_union_r, elem_of_singleton.
  - unfold addLine. destruct (endsWith _ _); cbn [orb].
    + destruct (_ =? _)%nat.
      * intros (c1 & Hw & [= <-])%bind_Ok Hst. by eapply write_sectionsSeen.
      * intros [= <-] [Hd Hs]. by split.
    + intros (c1 & Hw & [= <-])%bind_Ok Hst. by eapply write_sectionsSeen.
Qed.

Lemma forEach_sectionsSeen
    (n : nat) (lines : list string) (index : nat) (st st' : Locals) :
  forEach n lines index st = Ok st' → sectionsSeen st → sectionsSeen st'.
Proof.
  revert index st. induction lines as [|l lines IH]; intros index st; cbn [forEach].
  - by intros [= <-].
  - intros (st1 & H1 & H2)%bind_Ok Hst. eapply IH; [done|].
    by eapply callback_sectionsSeen.
Qed.

(** *** Qualified keys with more than two parts *)

Lemma splitFrom_first (sec t cur : string) :
  includes sec "::" = false → endsWith sec ":" = false →
  splitFrom "::" (sec +:+ "::" +:+ t) 0 cur
  = (cur +:+ sec) :: splitFrom "::" t 0 "".
Proof.
  revert cur. induction sec as [|c sec IH]; intros cur Hinc Hend.
  - rewrite append_nil_l, append_nil_r.
    change ("::" +:+ t) with (String ":" (String ":" t)).
    cbn [splitFrom String.prefix String.length Nat.sub].
    destruct (ascii_dec ":" ":"); [|done]. by rewrite prefix_nil.
  - cbn [includes endsWith] in Hinc, Hend.
    apply orb_false_iff in Hinc as [Hpre Hinc].
    apply orb_false_iff in Hend as [Heq Hend].
    rewrite append_cons. cbn [splitFrom].
    assert (String.prefix "::" (String c (sec +:+ "::" +:+ t)) = false) as ->.
    { destruct sec as [|d sec].
      - rewrite append_nil_l.
        change ("::" +:+ t) with (String ":" (String ":" t)).
        cbn [String.prefix].
        destruct (ascii_dec ":" c) as [<-|]; [|done]. by vm_compute in Heq.
      - rewrite append_cons. cbn [String.prefix] in Hpre |- *.
        destruct (ascii_dec ":" c); [|done].
        destruct (ascii_dec ":" d); [|done]. by rewrite prefix_nil in Hpre. }
    rewrite IH by done. by rewrite append_assoc.
Qed.

Lemma endsWith_colon_lower (s : string) :
  endsWith (toLowerCase s) ":" = endsWith s ":".
Proof.
  induction s as [|c s IH]; [done|]. cbn [toLowerCase endsWith]. rewrite IH.
  f_equal. cbn [String.eqb].
  assert (Ascii.eqb (lowerChar c) ":" = Ascii.eqb c ":") as ->.
  { pose proof (lowerChar_colon c) as [H1 H2].
    destruct (Ascii.eqb_spec c ":") as [->|Hne]; [done|].
    apply Ascii.eqb_neq. auto. }
  by destruct s.
Qed.

(** *** Lists of strings *)

Lemma splitFrom_comma (a t cur : string) :
  includes a "," = false →
  splitFrom "," (a +:+ "," +:+ t) 0 cur = (cur +:+ a) :: splitFrom "," t 0 "".
Proof.
  revert cur. induction a as [|c a IH]; intros cur Ha.
  - rewrite append_nil_l, append_nil_r. change ("," +:+ t) with (String "," t).
    cbn [splitFrom]. by rewrite (prefix_marker_cons ","), bool_decide_true.
  - cbn [includes] in Ha. apply orb_false_iff in Ha as [Hpre Ha].
    rewrite append_cons. cbn [splitFrom].
    rewrite (prefix_marker_cons ",") in Hpre |- *. rewrite Hpre.
    rewrite IH by done. by rewrite append_assoc.
Qed.

Lemma split_join (l : list string) :
  l ≠ [] → Forall (fun x => includes x "," = false) l →
  split (join l ",") "," = l.
Proof.
  intros Hne Hl. induction Hl as [|x l Hx Hl IH]; [done|]. clear Hne.
  destruct l as [|y l].
  - by apply split_absent.
  - cbn [join]. unfold split. rewrite splitFrom_comma by done.
    rewrite append_nil_l. f_equal. by apply IH.
Qed.

(** *** Decimal numerals *)

Lemma digitsValueFrom_of_uint (d : Decimal.uint) (acc : nat) :
  digitsValueFrom (N.of_nat acc) (NilEmpty.string_of_uint d)
  = N.of_nat (Nat.of_uint_acc d acc).
Proof.
  revert acc. induction d as [|d IH|d IH|d IH|d IH|d IH|d IH|d IH|d IH|d IH|d IH];
    intros acc; cbn [NilEmpty.string_of_uint digitsValueFrom Nat.of_uint_acc];
    [done|..]; rewrite <- IH; f_equal; rewrite Nat.tail_mul_spec;
    vm_compute (N.of_nat (nat_of_ascii _ - 48)); lia.
Qed.

Lemma takeDigits_of_uint (d : Decimal.uint) :
  takeDigits (NilEmpty.string_of_uint d) = NilEmpty.string_of_uint d.
Proof.
  induction d; cbn [NilEmpty.string_of_uint takeDigits]; [done|..];
    (change (isDigit _) with true; cbn iota; by rewrite IHd).
Qed.

Lemma dropDigits_of_uint (d : Decimal.uint) :
  dropDigits (NilEmpty.string_of_uint d) = "".
Proof.
  induction d; cbn [NilEmpty.string_of_uint dropDigits]; [done|..];
    (change (isDigit _) with true; cbn iota; by rewrite IHd).
Qed.

(** The rendering of a natural number: what it looks like to the numeric
    parsers. *)
Lemma ofNat_numeral (n : nat) :
  ∃ c s, ofNat n = String c s ∧ isDigit c = true
       ∧ takeDigits (ofNat n) = ofNat n ∧ dropDigits (ofNat n) = ""
       ∧ digitsValue (ofNat n) = N.of_nat n.
Proof.
  unfold ofNat, NilZero.string_of_uint.
  pose proof (DecimalNat.Unsigned.of_to n) as Hn. unfold Nat.of_uint in Hn.
  pose proof (digitsValueFrom_of_uint (Nat.to_uint n) 0) as Hv.
  rewrite Hn in Hv. change (N.of_nat 0) with 0%N in Hv. fold (digitsValue) in Hv.
  pose proof (takeDigits_of_uint (Nat.to_uint n)) as Ht.
  pose proof (dropDigits_of_uint (Nat.to_uint n)) as Hd.
  destruct (Nat.to_uint n) as [|d|d|d|d|d|d|d|d|d|d];
    [by exists "0"%char, ""; subst n|..];
    cbn [NilEmpty.string_of_uint] in *; by eexists _, _.
Qed.

(** *** Failures *)

Lemma bind_Throw {A B : Type} (r : result A) (k : A → result B) (m : string) :
  r ≫= k = Throw m ↔ r = Throw m ∨ ∃ a, r = Ok a ∧ k a = Throw m.
Proof.
  destruct r as [a|m']; cbn.
  - split; [eauto|]. by intros [?|(? & [= <-] & ?)].
  - split; [intros [= ->]; by left|]. by intros [[= ->]|(? & ? & ?)].
Qed.

Lemma write_Throw (c : Config) (sec : string) (n : nat) (line msg : string) :
  write c sec n line = Throw msg →
  msg = "parse the content error : line " +:+ ofNat n
  ∨ ∃ value, defects value ≠ [] ∧ msg = join (defects value) ", ".
Proof.
  unfold write. destruct (Z.eqb_spec (indexOf line "=") (-1)) as [|Hne].
  - intros [= <-]. by left.
  - intros [H|(? & _ & ?)]%bind_Throw; [|done]. right.
    destruct (String.eqb sec "matchers"); [|done].
    rewrite validateMatcher_defects in H. eexists.
    destruct (defects _) eqn:Hd; [done|]. injection H as <-.
    split; [|by rewrite Hd]. by rewrite Hd.
Qed.

Lemma write_Throw_failure
    (count : nat) (c : Config) (sec : string) (n : nat) (line msg : string) :
  (1 ≤ n ≤ count)%nat → write c sec n line = Throw msg → parseFailure count msg.
Proof.
  intros Hn [->|H]%write_Throw; [left|by right]. exists n. split; [done|by left].
Qed.

Lemma callback_Throw
    (count : nat) (st : Locals) (l : string) (index : nat) (msg : string) :
  (index < count)%nat → (currentLine st ≠ "" → 1 ≤ index)%nat →
  callback count st l index = Throw msg → parseFailure count msg.
Proof.
  intros Hi Hcur. unfold callback. destruct (negb _); [done|].
  destruct (_ && _).
  - unfold openSection.
    intros [Hflush|(st1 & Hflush & Hopen)]%bind_Throw.
    + destruct (currentLine st) as [|a cur]; [done|].
      cbn [String.length Nat.eqb negb] in Hflush.
      apply bind_Throw in Hflush as [Hw|(? & _ & ?)]; [|done].
      apply write_Throw_failure with (count := count) in Hw; [done|].
      specialize (Hcur ltac:(done)). lia.
    + revert Hopen. case_bool_decide; [|done]. intros [= <-].
      left. exists (index + 1)%nat. split; [lia|]. right. by eexists.
  - unfold addLine. destruct (endsWith _ _); cbn [orb].
    + destruct (_ =? _)%nat; [|done].
      intros [Hw|(? & _ & ?)]%bind_Throw; [|done].
      apply write_Throw_failure with (count := count) in Hw; [done|lia].
    + intros [Hw|(? & _ & ?)]%bind_Throw; [|done].
      apply write_Throw_failure with (count := count) in Hw; [done|lia].
Qed.

Lemma forEach_Throw
    (count : nat) (lines : list string) (index : nat) (st : Locals) (msg : string) :
  (index + List.length lines ≤ count)%nat →
  (index = 0%nat → currentLine st = "") →
  forEach count lines index st = Throw msg → parseFailure count msg.
Proof.
  revert index st. induction lines as [|l lines IH]; intros index st Hlen Hcur;
    cbn [forEach List.length] in *; [done|].
  intros [Hcb|(st1 & Hcb & Hrest)]%bind_Throw.
  - apply callback_Throw in Hcb; [done|lia|].
    intros Hne. destruct index; [by specialize (Hcur eq_refl)|lia].
  - apply IH in Hrest; [done|lia|done].
Qed.

(** *** Section headers *)

Lemma trimEnd_last (s : string) (c : ascii) :
  isWhiteSpace c = false → trimEnd (s +:+ String c "") = s +:+ String c "".
Proof.
  intros Hc. induction s as [|d s IH].
  - rewrite append_nil_l. cbn [trimEnd]. by rewrite Hc.
  - rewrite append_cons. cbn [trimEnd]. rewrite IH. by destruct s.
Qed.

Lemma endsWith_app (a p : string) : endsWith (a +:+ p) p = true.
Proof.
  induction a as [|c a IH].
  - rewrite append_nil_l. destruct p; cbn [endsWith]; by rewrite String.eqb_refl.
  - rewrite append_cons. cbn [endsWith]. rewrite IH. apply orb_true_r.
Qed.

(** A bracketed name without comment marks is a header of that name: the
    text between the brackets is kept as it is. *)
Lemma header_of_name (name : string) :
  includes name "#" = false → includes name ";" = false →
  cleaned ("[" +:+ name +:+ "]") = "[" +:+ name +:+ "]"
  ∧ isHeader ("[" +:+ name +:+ "]") = true
  ∧ headerName ("[" +:+ name +:+ "]") = name.
Proof.
  intros Hh Hs.
  assert (cleaned ("[" +:+ name +:+ "]") = "[" +:+ name +:+ "]") as Hc.
  { unfold cleaned, DEFAULT_COMMENT, DEFAULT_COMMENT_SEM.
    change ("[" +:+ name +:+ "]") with (String "[" (name +:+ "]")).
    rewrite !stripComment_cons by done.
    assert (∀ ch, includes name (String ch "") = false → ch ≠ "]"%char →
              stripComment (name +:+ "]") (String ch "") = name +:+ "]") as Hstrip.
    { intros ch Hn Hch. rewrite stripComment_app by done. f_equal.
      change "]" with (String "]" ""). by rewrite stripComment_cons. }
    rewrite !Hstrip by done.
    unfold trim. cbn [trimStart]. change (isWhiteSpace "[") with false. cbn iota.
    change (String "[" (name +:+ "]")) with (String "[" name +:+ String "]" "").
    by rewrite trimEnd_last. }
  split; [done|]. unfold isHeader, headerName. rewrite Hc. split.
  - apply andb_true_iff. split.
    { unfold startsWith.
      change ("[" +:+ name +:+ "]") with (String "[" (name +:+ "]")).
      by rewrite (prefix_marker_cons "["), bool_decide_true. }
    rewrite <- (append_assoc "[" name "]"). apply endsWith_app.
  - unfold substring, clamp, length.
    change ("[" +:+ name +:+ "]") with (String "[" (name +:+ "]")).
    cbn [String.length]. rewrite length_append. cbn [String.length].
    replace (Z.min (Z.max 1 0) _) with 1 by lia.
    replace (Z.min (Z.max (Z.of_nat (S (String.length name + 1)) - 1) 0) _)
      with (Z.of_nat (S (String.length name))) by lia.
    rewrite Z.min_l, Z.max_r by lia.
    replace (Z.to_nat 1) with 1%nat by lia.
    replace (Z.to_nat (Z.of_nat (S (String.length name)) - 1))
      with (String.length name) by lia.
    cbn [String.substring]. apply substring_prefix.
Qed.

(** *** White space at the end of a line *)

Lemma trimEnd_white_last (s : string) (w : ascii) :
  isWhiteSpace w = true → trimEnd (s +:+ String w "") = trimEnd s.
Proof.
  intros Hw. induction s as [|c s IH].
  - rewrite append_nil_l. cbn [trimEnd]. by rewrite Hw.
  - rewrite append_cons. cbn [trimEnd]. by rewrite IH.
Qed.

Lemma trim_white_last (s : string) (w : ascii) :
  isWhiteSpace w = true → trim (s +:+ String w "") = trim s.
Proof.
  intros Hw. unfold trim. rewrite <- !trimStart_trimEnd.
  by rewrite trimEnd_white_last.
Qed.

Lemma stripComment_white_last (ch w : ascii) (s : string) :
  ch ≠ w →
  stripComment (s +:+ String w "") (String ch "")
  = (if includes s (String ch "") then stripComment s (String ch "")
     else s +:+ String w "").
Proof.
  intros Hne. destruct (includes s (String ch "")) eqn:Hs.
  - by apply stripComment_app_cut.
  - rewrite stripComment_app by done. by rewrite stripComment_cons.
Qed.

Lemma cleaned_white_last (s : string) (w : ascii) :
  isWhiteSpace w = true → cleaned (s +:+ String w "") = cleaned s.
Proof.
  intros Hw. unfold cleaned, DEFAULT_COMMENT, DEFAULT_COMMENT_SEM.
  assert ("#"%char ≠ w) as H1 by (intros <-; done).
  assert (";"%char ≠ w) as H2 by (intros <-; done).
  rewrite (stripComment_white_last "#") by done.
  destruct (includes s "#") eqn:Hh; [done|].
  rewrite (stripComment_absent "#" s) by done.
  rewrite (stripComment_white_last ";") by done.
  destruct (includes s ";") eqn:Hs; [done|].
  rewrite (stripComment_absent ";" s) by done.
  by apply trim_white_last.
Qed.

End MoreFacts.

Import MoreFacts.

(** X1.  [set] fails only on the empty key, and what it stores under a key
    that does not begin with [::] is what [get] returns for that key, and
    for any key that differs from it in letter case only, whatever the
    store held before. *)
Theorem set_then_get (c : Config) (key key' value : string) :
  key ≠ "" → startsWith key "::" = false →
  toLowerCase key' = toLowerCase key →
  ∃ c', set c key value = Ok c' ∧ get c' key' = value.
Proof.
  intros Hkey Hstart Hcase. eexists. split; [by apply set_Ok|].
  assert (addressOf key' = addressOf key) as Haddr.
  { unfold addressOf. by rewrite Hcase. }
  rewrite get_stored, Haddr, addConfig_stored.
  rewrite (proj2 (String.eqb_neq _ _) (addressOf_section_not_empty _ Hstart)).
  by rewrite !String.eqb_refl.
Qed.

Lemma set_then_get_witness :
  ∃ c', set construct "Matchers::M" "r.sub == p.sub" = Ok c'
      ∧ get c' "matchers::m" = "r.sub == p.sub".
Proof. apply set_then_get; by vm_compute. Defined.

(** X2.  [set] changes one address only: for a key that does not begin with
    [::], every qualified key that addresses another section or another key
    reads the same value after the call as before. *)
Theorem set_leaves_other_keys (c c' : Config) (key value key' : string) :
  startsWith key "::" = false →
  addressOf key' ≠ addressOf key →
  set c key value = Ok c' →
  get c' key' = get c key'.
Proof.
  intros Hstart Hne Hset.
  assert (key ≠ "") as Hkey.
  { intros ->. by vm_compute in Hset. }
  rewrite set_Ok in Hset by done. injection Hset as <-.
  rewrite !get_stored, addConfig_stored.
  rewrite (proj2 (String.eqb_neq _ _) (addressOf_section_not_empty _ Hstart)).
  destruct (String.eqb_spec (addressOf key).1 (addressOf key').1) as [H1|]; [|done].
  destruct (String.eqb_spec (addressOf key).2 (addressOf key').2) as [H2|]; [|done].
  destruct Hne. destruct (addressOf key), (addressOf key'). cbn in *. congruence.
Qed.

Lemma set_leaves_other_keys_witness :
  ∃ c', set (addConfig construct "s" "k" "v").1 "s::other" "w" = Ok c'
      ∧ get c' "s::k" = get (addConfig construct "s" "k" "v").1 "s::k".
Proof.
  eexists. split; [by vm_compute|].
  apply (set_leaves_other_keys _ _ "s::other" "w" "s::k"); by vm_compute.
Defined.

(** X3.  A key that begins with [::] is written to section [default] but
    read from the empty section name, which the store never holds: after
    [set("::k", v)] on a store without an empty section name,
    [get("::k")] is the empty string and [get("k")] is [v]. *)
Theorem set_leading_colons (c : Config) (k value : string) :
  data c !! "" = None → includes k "::" = false →
  ∃ c', set c ("::" +:+ k) value = Ok c'
      ∧ get c' ("::" +:+ k) = ""
      ∧ get c' k = value.
Proof.
  intros Hc Hk. eexists. split; [by apply set_Ok|].
  rewrite !get_stored, addressOf_leading_colons by done.
  rewrite addressOf_unqualified by done. cbn [fst snd]. split.
  - unfold stored. by rewrite addConfig_no_empty_section.
  - rewrite addConfig_stored. by rewrite !String.eqb_refl.
Qed.

Lemma set_leading_colons_witness :
  ∃ c', set construct "::k" "v" = Ok c' ∧ get c' "::k" = "" ∧ get c' "k" = "v".
Proof. apply (set_leading_colons construct "k" "v"); by vm_compute. Defined.

(** X4.  The empty section name is never a section of the store: a parsed
    configuration has none, [set] adds none, and so [get] of any key that
    begins with [::] returns the empty string on a parsed configuration. *)
Theorem no_empty_section_name (text : string) (c : Config) :
  newConfigFromText text = Ok c →
  data c !! "" = None
  ∧ (∀ k, get c ("::" +:+ k) = "")
  ∧ (∀ key value c', set c key value = Ok c' → data c' !! "" = None).
Proof.
  intros Hparse.
  assert (data c !! "" = None) as Hc.
  { apply (newConfigFromText_keeps (fun c => data c !! "" = None)) with text;
      [|done|done].
    intros c0 sec n line c1 H0 (k & v & -> & _)%write_Ok.
    by apply addConfig_no_empty_section. }
  split; [done|]. split.
  - intros k. rewrite get_stored, addressOf_leading_colons_section.
    unfold stored. by rewrite Hc.
  - intros key value c' Hset.
    assert (key ≠ "") as Hkey by (intros ->; by vm_compute in Hset).
    rewrite set_Ok in Hset by done. injection Hset as <-.
    by apply addConfig_no_empty_section.
Qed.

Lemma no_empty_section_name_witness :
  ∃ c, newConfigFromText ("[]" +:+ LF +:+ "k = v") = Ok c
     ∧ data c !! "" = None ∧ get c "::k" = "" ∧ get c "k" = "v".
Proof.
  eexists. split; [by vm_compute|].
  destruct (no_empty_section_name ("[]" +:+ LF +:+ "k = v") _ eq_refl)
    as (H1 & H2 & _).
  split; [exact H1|]. split; [exact (H2 "k")|by vm_compute].
Defined.

(** X5.  [addConfig] always returns [true]: the section's item exists by
    the time it is fetched and holds the option once it is set, so the
    [false] branch is never taken. *)
Theorem addConfig_returns_true (c : Config) (section option value : string) :
  (addConfig c section option value).2 = true.
Proof.
  unfold addConfig.
  set (s := if String.eqb section "" then DEFAULT_SECTION else section).
  destruct (data c !! s) as [item|] eqn:Hitem.
  - rewrite bool_decide_true by eauto. cbn [negb]. rewrite Hitem. cbn [snd].
    apply bool_decide_true. rewrite lookup_insert_eq. eauto.
  - rewrite bool_decide_false by (intros [? ?]; congruence). cbn [negb].
    rewrite lookup_insert_eq. cbn [snd].
    apply bool_decide_true. rewrite lookup_insert_eq. eauto.
Qed.

(** *** Lines of the text *)

(** X6.  A comment is cut wherever its mark stands: a physical line
    followed by [#] and any text is processed as the line alone when the
    line holds no [#], and likewise for [;] when the line holds no [;],
    in every state of the loop.  A [#] or [;] inside a value ends the
    value. *)
Theorem comment_is_cut (linesCount : nat) (st : Locals) (index : nat) (a b : string) :
  (includes a "#" = false →
   callback linesCount st (a +:+ "#" +:+ b) index = callback linesCount st a index)
  ∧ (includes a ";" = false →
     callback linesCount st (a +:+ ";" +:+ b) index = callback linesCount st a index).
Proof.
  split; intros Ha; apply callback_cleaned;
    [by apply cleaned_hash|by apply cleaned_semicolon].
Qed.

Lemma comment_is_cut_witness :
  callback 3 (initial construct) "m = a # b; c" 0
  = callback 3 (initial construct) "m = a " 0
  ∧ callback 3 (initial construct) "m = a ; b # c" 0
    = callback 3 (initial construct) "m = a " 0.
Proof.
  split.
  - destruct (comment_is_cut 3 (initial construct) 0 "m = a " " b; c") as [H _].
    apply H. by vm_compute.
  - destruct (comment_is_cut 3 (initial construct) 0 "m = a " " b # c") as [_ H].
    apply H. by vm_compute.
Defined.

(** X7.  A text in which every non-empty line is blank once its comment is
    cut (the empty text, white space, comment lines) parses without error
    to the configuration that holds nothing. *)
Theorem blank_text_parses_to_nothing (text : string) :
  Forall (fun l => cleaned l = "") (linesOf text) →
  newConfigFromText text = Ok construct.
Proof.
  intros H. unfold newConfigFromText, parseBuffer, runBuffer.
  by rewrite forEach_blank.
Qed.

Lemma blank_text_parses_to_nothing_witness :
  newConfigFromText "" = Ok construct
  ∧ newConfigFromText ("# model" +:+ LF +:+ "   " +:+ LF +:+ LF +:+ " ; end")
    = Ok construct.
Proof.
  split; apply blank_text_parses_to_nothing;
    repeat constructor; by vm_compute.
Defined.

(** X8.  [write] cuts a logical line at its first [=]: for a line [k=v]
    whose [k] holds no [=], whatever [v] holds, the key is [k] trimmed and
    the value is [v] trimmed (so a value may hold [=]); the entry is
    inserted, after the validation of the value when the section is
    [matchers]. *)
Theorem write_cuts_at_first_equal
    (c : Config) (sec : string) (n : nat) (k v : string) :
  includes k "=" = false →
  write c sec n (k +:+ "=" +:+ v) =
  (if String.eqb sec "matchers" then validateMatcher (trim v) n else Ok ())
    ≫= fun _ => Ok (addConfig c sec (trim k) (trim v)).1.
Proof.
  intros Hk. destruct (cut_at_first_equal k v Hk) as (Hne & Hkey & Hval).
  by rewrite write_with_equal, Hkey, Hval.
Qed.

Lemma write_cuts_at_first_equal_witness :
  ∃ c, write construct "matchers" 7 "m = r.sub == p.sub" = Ok c
     ∧ get c "matchers::m" = "r.sub == p.sub".
Proof.
  eexists. split.
  - etrans.
    + apply (write_cuts_at_first_equal construct "matchers" 7
               "m " " r.sub == p.sub" eq_refl).
    + by vm_compute.
  - by vm_compute.
Defined.

(** X9.  An entry line.  When the pending buffer is empty, a physical line
    [k=v] that holds no comment mark, whose [k] holds no [=], and which
    once trimmed is neither a section header nor ends in the continuation
    mark, inserts the key [k] trimmed with the value [v] trimmed into the
    active section (after the validation of the value in section
    [matchers]) and leaves the buffer empty, whatever the line's position
    in the text. *)
Theorem entry_line
    (linesCount : nat) (st : Locals) (index : nat) (k v : string) :
  includes (k +:+ "=" +:+ v) "#" = false →
  includes (k +:+ "=" +:+ v) ";" = false →
  includes k "=" = false →
  startsWith (trim (k +:+ "=" +:+ v)) "["
    && endsWith (trim (k +:+ "=" +:+ v)) "]" = false →
  endsWith (trim (k +:+ "=" +:+ v)) "\" = false →
  currentLine st = "" →
  callback linesCount st (k +:+ "=" +:+ v) index =
  (if String.eqb (section st) "matchers"
   then validateMatcher (trim v) (index + 1) else Ok ())
    ≫= fun _ =>
         Ok (mkLocals (addConfig (this st) (section st) (trim k) (trim v)).1
                      (section st) "" (seenSections st)).
Proof.
  intros Hhash Hsemi Hk Hhead Hcont Hcur. unfold callback.
  fold (cleaned (k +:+ "=" +:+ v)).
  assert (cleaned (k +:+ "=" +:+ v) = trim (k +:+ "=" +:+ v)) as ->.
  { unfold cleaned, DEFAULT_COMMENT, DEFAULT_COMMENT_SEM.
    by rewrite (stripComment_absent "#"), (stripComment_absent ";"). }
  rewrite Hhead. unfold addLine, DEFAULT_MULTI_LINE_SEPARATOR.
  rewrite Hcont, Hcur, append_nil_l. cbn [orb].
  rewrite trim_entry.
  assert (truthy (trimStart k +:+ "=" +:+ trimEnd v) = true) as ->.
  { by destruct (trimStart k). }
  cbn [negb].
  rewrite write_cuts_at_first_equal by (by apply includes_trimStart).
  rewrite trim_trimStart, !trim_trimEnd.
  by destruct (if String.eqb _ _ then _ else _).
Qed.

Lemma entry_line_witness :
  callback 9 (mkLocals construct "policy_effect" "" {["policy_effect"]})
           "  e = some(where (p.eft == allow))  " 4
  = Ok (mkLocals (addConfig construct "policy_effect" "e"
                            "some(where (p.eft == allow))").1
                 "policy_effect" "" {["policy_effect"]}).
Proof.
  etrans.
  - apply (entry_line 9 _ 4 "  e " " some(where (p.eft == allow))  ");
      by vm_compute.
  - by vm_compute.
Defined.

(** *** What a parsed configuration holds *)

(** X10.  Every key that the parser stores is trimmed and holds no [=], and
    every value it stores is trimmed: no entry of a parsed configuration
    begins or ends with white space. *)
Theorem parsed_entries_are_trimmed
    (text : string) (c : Config) (sec : string) (item : gmap string string)
    (k v : string) :
  newConfigFromText text = Ok c →
  data c !! sec = Some item → item !! k = Some v →
  trim k = k ∧ includes k "=" = false ∧ trim v = v.
Proof.
  intros Hparse Hsec Hk.
  assert (∀ sec k v, stored c sec k = Some v →
            trim k = k ∧ includes k "=" = false ∧ trim v = v) as Hall.
  { apply (newConfigFromText_keeps
             (fun c => ∀ sec k v, stored c sec k = Some v →
                         trim k = k ∧ includes k "=" = false ∧ trim v = v))
      with text; [|done|].
    - intros c0 s n line c1 H0 (k1 & v1 & -> & Hk1 & Hk1' & Hv1)%write_Ok_shape.
      intros sec' k' v'. rewrite addConfig_stored.
      destruct (String.eqb_spec
                  (if String.eqb s "" then DEFAULT_SECTION else s) sec');
        [|by apply H0].
      destruct (String.eqb_spec k1 k') as [<-|]; [|by apply H0].
      by intros [= <-].
    - intros sec' k' v'. unfold stored. cbn. by rewrite lookup_empty. }
  apply (Hall sec). unfold stored. by rewrite Hsec.
Qed.

Lemma parsed_entries_are_trimmed_witness :
  trim "k" = "k" ∧ includes "k" "=" = false ∧ trim "a = b" = "a = b".
Proof.
  apply (parsed_entries_are_trimmed
           ("[s]" +:+ LF +:+ "  k  =  a = b  ")
           (addConfig construct "s" "k" "a = b").1
           "s" {["k" := "a = b"]} "k" "a = b"); by vm_compute.
Defined.

(** X11.  The parser invents no section: every section of a parsed
    configuration is [default] or the name of a section header of the
    text. *)
Theorem parsed_sections_come_from_headers
    (text : string) (c : Config) (sec : string) :
  newConfigFromText text = Ok c →
  is_Some (data c !! sec) →
  sec = "default"
  ∨ ∃ l, l ∈ linesOf text ∧ isHeader l = true ∧ headerName l = sec.
Proof.
  unfold newConfigFromText, parseBuffer, runBuffer.
  intros (st & Hrun & [= <-])%bind_Ok Hsec.
  assert (sectionsSeen st) as [Hdata _].
  { eapply forEach_sectionsSeen; [done|]. split; cbn; [|by left].
    intros s [? Hs]. by rewrite lookup_empty in Hs. }
  destruct (Hdata sec Hsec) as [|Hseen]; [by left|]. right.
  destruct (forEach_seen_only _ _ _ _ _ _ Hrun Hseen) as [Hin|H]; [|done].
  by apply elem_of_empty in Hin.
Qed.

Lemma parsed_sections_come_from_headers_witness :
  "s" = "default"
  ∨ ∃ l, l ∈ linesOf ("a = 1" +:+ LF +:+ " [s] # policy" +:+ LF +:+ "k = v")
       ∧ isHeader l = true ∧ headerName l = "s".
Proof.
  apply (parsed_sections_come_from_headers
           ("a = 1" +:+ LF +:+ " [s] # policy" +:+ LF +:+ "k = v")
           (addConfig (addConfig construct "" "a" "1").1 "s" "k" "v").1 "s").
  - by vm_compute.
  - vm_compute. by eexists.
Defined.

(** *** More on the getters *)

(** X12.  [get] reads the first two parts of a qualified key and ignores
    the rest: when the section and the option hold no [::] and do not end
    in a colon, [get("section::option::rest")] is [get("section::option")]
    for every [rest]. *)
Theorem get_ignores_further_parts (c : Config) (sec opt rest : string) :
  includes sec "::" = false → endsWith sec ":" = false →
  includes opt "::" = false → endsWith opt ":" = false →
  get c (sec +:+ "::" +:+ opt +:+ "::" +:+ rest) = get c (sec +:+ "::" +:+ opt).
Proof.
  intros Hs Hs' Ho Ho'. rewrite !get_stored.
  assert (addressOf (sec +:+ "::" +:+ opt +:+ "::" +:+ rest)
          = addressOf (sec +:+ "::" +:+ opt)) as ->; [|done].
  unfold addressOf. rewrite !toLowerCase_append.
  change (toLowerCase "::") with "::".
  rewrite (split_qualified (toLowerCase sec) (toLowerCase opt))
    by (by rewrite ?includes_colons_lower, ?endsWith_colon_lower).
  unfold split.
  rewrite (splitFrom_first (toLowerCase sec))
    by (by rewrite ?includes_colons_lower, ?endsWith_colon_lower).
  rewrite (splitFrom_first (toLowerCase opt))
    by (by rewrite ?includes_colons_lower, ?endsWith_colon_lower).
  rewrite !append_nil_l. cbn [List.length nth].
  pose proof (splitFrom_not_nil "::" (toLowerCase rest) 0 "") as Hne.
  by destruct (splitFrom "::" (toLowerCase rest) 0 "").
Qed.

Lemma get_ignores_further_parts_witness :
  get (addConfig construct "a" "b" "v").1 "a::b::c::d"
  = get (addConfig construct "a" "b" "v").1 "a::b".
Proof.
  apply (get_ignores_further_parts _ "a" "b" "c::d"); by vm_compute.
Defined.

(** X13.  [getStrings] reads back a list: when the value under a key is
    the comma-joined text of a non-empty list of strings that hold no
    comma, [getStrings] returns that list. *)
Theorem getStrings_reads_joined_list (c : Config) (key : string) (l : list string) :
  l ≠ [] → Forall (fun x => includes x "," = false) l →
  get c key = join l "," →
  getStrings c key = l.
Proof. intros Hne Hl Hget. unfold getStrings. rewrite Hget. by apply split_join. Qed.

Lemma getStrings_reads_joined_list_witness :
  getStrings (addConfig construct "r" "r" "sub, obj,act").1 "r::r"
  = ["sub"; " obj"; "act"].
Proof.
  apply getStrings_reads_joined_list; [done| |by vm_compute].
  by repeat constructor.
Defined.

(** X14.  A natural number written in decimal is read back by [getInt] and
    by [getFloat]: when the value under a key is the decimal numeral of
    [n], both return the double nearest to [n] (ties to the even
    mantissa), with the positive sign; neither returns NaN. *)
Theorem numeric_getters_read_decimal (c : Config) (key : string) (n : nat) :
  get c key = ofNat n →
  getInt c key = roundDecimal false (N.of_nat n) 0
  ∧ getFloat c key = roundDecimal false (N.of_nat n) 0
  ∧ getInt c key ≠ NaN ∧ getFloat c key ≠ NaN.
Proof.
  intros Hget.
  assert (getInt c key = roundDecimal false (N.of_nat n) 0
          ∧ getFloat c key = roundDecimal false (N.of_nat n) 0) as [Hi Hf].
  { unfold getInt, getFloat, parseInt10, parseFloat, readInt10, readFloat.
    rewrite Hget.
    destruct (ofNat_numeral n) as (d & s & Hs & Hd & Htake & Hdrop & Hval).
    assert (trimStart (ofNat n) = ofNat n) as ->.
    { rewrite Hs. cbn [trimStart].
      by destruct d as [[] [] [] [] [] [] [] []]. }
    assert (stripSign (ofNat n) = (false, ofNat n)) as ->.
    { rewrite Hs. by destruct d as [[] [] [] [] [] [] [] []]. }
    assert (String.prefix "Infinity" (ofNat n) = false) as ->.
    { rewrite Hs. by destruct d as [[] [] [] [] [] [] [] []]. }
    rewrite Htake, Hdrop, append_nil_r. rewrite Hs in Hval |- *.
    cbv iota beta. by rewrite Hval. }
  rewrite Hi, Hf. repeat split; apply roundDecimal_not_NaN.
Qed.

Lemma numeric_getters_read_decimal_witness :
  getInt (addConfig construct "" "depth" "120").1 "depth"
  = SpecFloat.S754_finite false 8444249301319680 (-46)
  ∧ getFloat (addConfig construct "" "depth" "120").1 "depth"
    = SpecFloat.S754_finite false 8444249301319680 (-46).
Proof.
  destruct (numeric_getters_read_decimal
              (addConfig construct "" "depth" "120").1 "depth" 120 eq_refl)
    as (-> & -> & _).
  by vm_compute.
Defined.

(** *** The end of the text, failures, files, headers *)

(** X15.  When the last non-empty line of the text is not blank once its
    comment is cut, a run of the parser that raises no error ends with an
    empty buffer: no logical line is left pending, even when that last line
    ends in the continuation mark. *)
Theorem last_line_leaves_nothing_pending
    (c : Config) (text : string) (ls : list string) (l : string) (st : Locals) :
  linesOf text = ls ++ [l] → cleaned l ≠ "" →
  runBuffer c text = Ok st → currentLine st = "".
Proof. apply runBuffer_flushes_last_line. Qed.

Lemma last_line_leaves_nothing_pending_witness :
  ∃ st, runBuffer construct ("[s]" +:+ LF +:+ "a = 1 \" +:+ LF) = Ok st
      ∧ written (this st) = [("s", "a", "1")]
      ∧ currentLine st = "".
Proof.
  eexists. split; [by vm_compute|]. split; [by vm_compute|].
  apply (last_line_leaves_nothing_pending construct
           ("[s]" +:+ LF +:+ "a = 1 \" +:+ LF) ["[s]"] "a = 1 \");
    by vm_compute.
Defined.

(** X16.  Every failure of [newConfigFromText] is of one of three kinds: a
    logical line without [=], or a duplicate section, cited under a line
    number between 1 and the number of non-empty lines of the text; or the
    joined defects of a matcher, which cite no line. *)
Theorem parse_failures (text msg : string) :
  newConfigFromText text = Throw msg →
  parseFailure (List.length (linesOf text)) msg.
Proof.
  unfold newConfigFromText, parseBuffer, runBuffer.
  intros [H|(? & _ & ?)]%bind_Throw; [|done].
  apply forEach_Throw in H; [done|cbn; lia|done].
Qed.

Lemma parse_failures_witness :
  parseFailure 2 "Duplicated section: p at line 2"
  ∧ parseFailure 2 "Invalid properties: p.dom, Found extra dots".
Proof.
  split.
  - by apply (parse_failures ("[p]" +:+ LF +:+ LF +:+ "[p]")).
  - by apply (parse_failures ("[matchers]" +:+ LF +:+ "m = r.sub == p.dom..")).
Defined.

(** X17.  Loading a file is parsing its text: with a file system at hand,
    [newConfigFromFile] gives what [newConfigFromText] gives on the text
    read, the default file system is not consulted, and a failure of the
    read is the failure of the load; [newConfig] does the same with the
    default file system, and fails when there is none. *)
Theorem file_is_parsed_as_its_text
    (mustGetDefaultFileSystem : result FileSystem) (fs : FileSystem)
    (path : string) :
  (∀ body, readFileSync fs path = Ok body →
     newConfigFromFile mustGetDefaultFileSystem path (Some fs)
     = newConfigFromText body
     ∧ (mustGetDefaultFileSystem = Ok fs →
        newConfig mustGetDefaultFileSystem path = newConfigFromText body))
  ∧ (∀ msg, readFileSync fs path = Throw msg →
       newConfigFromFile mustGetDefaultFileSystem path (Some fs) = Throw msg)
  ∧ (∀ msg, mustGetDefaultFileSystem = Throw msg →
       newConfig mustGetDefaultFileSystem path = Throw msg).
Proof.
  unfold newConfig, newConfigFromFile, parse, newConfigFromText.
  split; [|split].
  - intros body Hread. cbn. rewrite Hread. split; [done|].
    intros ->. cbn. by rewrite Hread.
  - intros msg Hread. cbn. by rewrite Hread.
  - by intros msg ->.
Qed.

Lemma file_is_parsed_as_its_text_witness :
  newConfigFromFile (Throw "no file system") "model.conf"
    (Some (mkFileSystem (fun path =>
       if String.eqb path "model.conf" then Ok "a = 1" else Throw "ENOENT")))
  = newConfigFromText "a = 1"
  ∧ newConfigFromFile (Throw "no file system") "other.conf"
      (Some (mkFileSystem (fun path =>
         if String.eqb path "model.conf" then Ok "a = 1" else Throw "ENOENT")))
    = Throw "ENOENT".
Proof.
  split.
  - by apply (file_is_parsed_as_its_text (Throw "no file system")
                (mkFileSystem (fun path =>
                   if String.eqb path "model.conf" then Ok "a = 1"
                   else Throw "ENOENT")) "model.conf").
  - by apply (file_is_parsed_as_its_text (Throw "no file system")
                (mkFileSystem (fun path =>
                   if String.eqb path "model.conf" then Ok "a = 1"
                   else Throw "ENOENT")) "other.conf").
Defined.

(** X18.  A line [[name]] whose name holds no comment mark opens the
    section of exactly that name, white space inside the brackets
    included: with an empty buffer, the callback makes it the active
    section and records it, or reports it as a duplicate when it was seen
    before; the store is not touched. *)
Theorem header_opens_named_section
    (linesCount : nat) (st : Locals) (index : nat) (name : string) :
  includes name "#" = false → includes name ";" = false →
  currentLine st = "" →
  callback linesCount st ("[" +:+ name +:+ "]") index =
  if bool_decide (name ∈ seenSections st)
  then Throw ("Duplicated section: " +:+ name +:+ " at line " +:+ ofNat (index + 1))
  else Ok (mkLocals (this st) name "" (seenSections st ∪ {[name]})).
Proof.
  intros Hh Hs Hcur. destruct (header_of_name name Hh Hs) as (Hc & Hhead & Hname).
  rewrite callback_header by done. unfold openSection.
  fold (headerName ("[" +:+ name +:+ "]")). rewrite Hname, Hcur.
  cbn [String.length Nat.eqb negb mbind result_bind]. by rewrite Hcur.
Qed.

Lemma header_opens_named_section_witness :
  callback 5 (initial construct) "[ a ]" 0
  = Ok (mkLocals construct " a " "" (∅ ∪ {[" a "]})).
Proof.
  etrans.
  - by apply (header_opens_named_section 5 (initial construct) 0 " a ").
  - by vm_compute.
Defined.

(** X19.  White space at the end of a physical line is ignored, the
    carriage return of a CRLF line ending included: in every state of the
    loop the callback treats a line followed by a white-space character as
    the line alone. *)
Theorem trailing_white_space_is_ignored
    (linesCount : nat) (st : Locals) (index : nat) (l : string) (w : ascii) :
  isWhiteSpace w = true →
  callback linesCount st (l +:+ String w "") index = callback linesCount st l index.
Proof. intros Hw. by apply callback_cleaned, cleaned_white_last. Qed.

Lemma trailing_white_space_is_ignored_witness :
  callback 4 (initial construct) ("k = v" +:+ String (ascii_of_nat 13) "") 1
  = callback 4 (initial construct) "k = v" 1.
Proof. by apply trailing_white_space_is_ignored. Defined.
